(** * eES_Gen: a neutrino-electron elastic scattering event generator

    Shallow embedding of [src/eES_gen.py] and the properties of its
    sampling engine.

    Python floats and NumPy float64 values are IEEE 754 binary64 numbers:
    they are Rocq's primitive [float]s, whose arithmetic is the same
    round-to-nearest arithmetic.  The generator's code is translated from
    the source; the NumPy and SciPy functions it calls are written out as
    those libraries compute them.  What IEEE 754 does not fix is a
    parameter: the random number generator, the functions of the C library
    ([cos], [sin], [acos] and [pow], which Python's [**] calls) and the dot
    product of BLAS, whose order of summation and use of fused
    multiply-add depend on the build. *)

From Stdlib Require Import Floats ZArith Lia Bool String.
From stdpp Require Import base option list gmap strings.
From Equations Require Import Equations.
From Equations.Prop Require Import Logic.

Set Warnings "-inexact-float".
Set Default Proof Using "Type".

Local Open Scope string_scope.

(** ** Exceptions, results and the generator monad *)

(** The three [assert] statements of the sampling code, by what they check:
    [assert flavor in self.flavors], [assert eCos >= -1 and eCos <= 1] and
    [assert np.isclose(np.dot(eDir, sn_direction), eCos)].  Assertions are
    executed, as Python executes them unless it is started with [-O]. *)
Inductive assertion : Set :=
| FlavorNotRecognized
| ECosOutOfRange
| DotProductMismatch.

(** The exceptions the code raises itself ([AssertionError], and the
    [RuntimeError] of [rejectionSampling]) and the ones Python and NumPy
    raise under it. *)
Inductive exn : Set :=
| AssertionError (a : assertion)
| RuntimeError
| ValueError
| OverflowError
| ZeroDivisionError
| TypeError
| KeyError
| IndexError.

Inductive result (A : Type) : Type :=
| Ok (a : A)
| Raise (e : exn).
Arguments Ok {A} a.
Arguments Raise {A} e.

#[export] Instance result_ret : MRet result := fun A a => Ok a.
#[export] Instance result_bind : MBind result := fun A B f r =>
  match r with
  | Ok a => f a
  | Raise e => Raise e
  end.

(** A computation that draws from the generator's random number source: the
    source's state is threaded through, and is kept when an exception is
    raised (the Python object has been mutated by then). *)
Definition M (S A : Type) : Type := S -> result A * S.

#[export] Instance M_ret {S} : MRet (M S) := fun A a s => (Ok a, s).
#[export] Instance M_bind {S} : MBind (M S) := fun A B f m s =>
  match m s with
  | (Ok a, s') => f a s'
  | (Raise e, s') => (Raise e, s')
  end.

Definition lift {S A} (r : result A) : M S A := fun s => (r, s).

Definition assert_ {S} (b : bool) (a : assertion) : M S unit :=
  lift (if b then Ok tt else Raise (AssertionError a)).

(** ** The C library

    [np.cos], [np.sin] and [np.arccos] are the C library's [cos], [sin] and
    [acos], and Python's [x ** y] on floats ends in its [pow]: functions
    that IEEE 754 does not fix, and that no C library rounds correctly in
    every case. *)
Class Libm : Type := {
  cos : float -> float;
  sin : float -> float;
  arccos : float -> float;
  pow : float -> float -> float
}.

(** ** Python float arithmetic

    [+], [-] and [*] on Python floats are the IEEE operations; [/] and [**]
    raise where C would return a special value. *)

Module Py.

Local Open Scope float_scope.

(** [a / b] on floats: [ZeroDivisionError] when [b == 0]. *)
Definition div (a b : float) : result float :=
  if b =? 0 then Raise ZeroDivisionError else Ok (a / b).

Section Power.

Context `{Libm}.

(** [x ** 2], as CPython's [float_pow] computes it at the exponent 2.0: a
    NaN base is returned, an infinite one gives [inf], a zero gives [0.0];
    a negative base is replaced by its absolute value (the exponent is an
    even integer); 1.0 gives 1.0; every other base goes to the C library's
    [pow], and an infinite result of it is an [OverflowError]. *)
Definition pow2 (x : float) : result float :=
  if is_nan x then Ok x
  else if is_infinity x then Ok infinity
  else if x =? 0 then Ok 0
  else
    let iv := abs x in
    if iv =? 1 then Ok 1
    else
      let ix := pow iv 2 in
      if is_infinity ix then Raise OverflowError else Ok ix.

(** [x ** 0.5], by the same function at the exponent 0.5.  A negative
    finite base gives a complex number, and the comparison [eCos >= -1] that
    follows raises [TypeError] on it; no random draw happens in between, so
    the error is raised here. *)
Definition pow_half (x : float) : result float :=
  if is_nan x then Ok x
  else if is_infinity x then Ok infinity
  else if x =? 0 then Ok 0
  else if x <? 0 then Raise TypeError
  else if x =? 1 then Ok 1
  else
    let ix := pow x 0.5 in
    if is_infinity ix then Raise OverflowError else Ok ix.

End Power.

(** The builtin [max(a, b)]: [b] when [b > a], else [a]. *)
Definition max (a b : float) : float := if a <? b then b else a.

End Py.

(** ** NumPy on float64 arrays

    NumPy arithmetic never raises on division by zero or on an invalid
    operation: it warns and returns an infinity or a NaN, as IEEE 754 says.
    A one-dimensional array is a list; an array of shape (3,) is a triple. *)

Module Np.

Local Open Scope float_scope.

Definition vec3 : Type := float * float * float.

(** [v / s] and [s * v], element by element. *)
Definition vdiv (v : vec3) (s : float) : vec3 :=
  let '(x, y, z) := v in (x / s, y / s, z / s).

Definition vscale (s : float) (v : vec3) : vec3 :=
  let '(x, y, z) := v in (s * x, s * y, s * z).

(** A sum of three products, each product and each sum rounded, from left
    to right. *)
Definition sum_prod (a b : vec3) : float :=
  let '(a0, a1, a2) := a in
  let '(b0, b1, b2) := b in
  a0 * b0 + a1 * b1 + a2 * b2.

Definition has_nan (v : vec3) : bool :=
  let '(x, y, z) := v in is_nan x || is_nan y || is_nan z.

(** [np.dot] of two float64 vectors, and [x.dot(x)] inside
    [np.linalg.norm], are the [ddot] of the BLAS library NumPy is linked
    with.  Which products are fused with the sum that follows them, and in
    which order the terms are added, depends on the library and on the
    processor; what every such evaluation of [a0 b0 + a1 b1 + a2 b2] does
    is all that is kept: a NaN operand gives NaN, and the dot product of a
    vector with itself is the rounded square of its only component that is
    not a zero (the other two terms are exact zeros, whatever they are
    added to). *)
Class Blas : Type := {
  ddot : vec3 -> vec3 -> float;
  ddot_nan a b : has_nan a || has_nan b = true -> ddot a b = nan;
  ddot_x x y z :
    (y =? 0) = true -> (z =? 0) = true -> ddot (x, y, z) (x, y, z) = x * x;
  ddot_y x y z :
    (x =? 0) = true -> (z =? 0) = true -> ddot (x, y, z) (x, y, z) = y * y;
  ddot_z x y z :
    (x =? 0) = true -> (y =? 0) = true -> ddot (x, y, z) (x, y, z) = z * z
}.

Definition dot `{Blas} (a b : vec3) : float := ddot a b.

Definition cross (a b : vec3) : vec3 :=
  let '(a0, a1, a2) := a in
  let '(b0, b1, b2) := b in
  (a1 * b2 - a2 * b1, a2 * b0 - a0 * b2, a0 * b1 - a1 * b0).

(** [np.linalg.norm] of a vector: [sqrt(x.dot(x))], the square root of
    its dot product with itself. *)
Definition norm `{Blas} (v : vec3) : float := sqrt (dot v v).

(** [np.sum], [np.min] and [np.max] of a one-dimensional array; the
    reductions raise [ValueError] on an empty array and propagate NaN. *)
Definition sum (l : list float) : float := foldl PrimFloat.add 0 l.

Definition minimum (a b : float) : float :=
  if is_nan a then a else if is_nan b then b else if b <? a then b else a.

Definition maximum (a b : float) : float :=
  if is_nan a then a else if is_nan b then b else if a <? b then b else a.

Definition min (l : list float) : result float :=
  match l with
  | [] => Raise ValueError
  | x :: l' => Ok (foldl minimum x l')
  end.

Definition max (l : list float) : result float :=
  match l with
  | [] => Raise ValueError
  | x :: l' => Ok (foldl maximum x l')
  end.

(** [np.isclose(a, b)] with its default tolerances [rtol = 1e-05] and
    [atol = 1e-08]. *)
Definition rtol : float := 1e-05.
Definition atol : float := 1e-08.

Definition isclose (a b : float) : bool :=
  ((abs (a - b) <=? atol + rtol * abs b) && is_finite b) || (a =? b).

(** [np.interp(x, xp, fp)]: the index search of the C routine is a linear
    scan here, which finds the same interval [xp[j] <= x < xp[j+1]] on an
    increasing [xp]. [interp_scan x x0 f0 rest] is at [dx[j] = x0],
    [dy[j] = f0], with [not (x < x0)] already known. *)
Definition lerp (x x0 f0 x1 f1 : float) : float :=
  let slope := (f1 - f0) / (x1 - x0) in
  let r := slope * (x - x0) + f0 in
  if is_nan r then
    let r' := slope * (x - x1) + f1 in
    if is_nan r' && (f0 =? f1) then f0 else r'
  else r.

Fixpoint interp_scan (x x0 f0 : float) (rest : list (float * float)) : float :=
  match rest with
  | [] => f0
  | (x1, f1) :: rest' =>
      if x <? x1 then
        if x0 =? x then f0 else lerp x x0 f0 x1 f1
      else interp_scan x x1 f1 rest'
  end.

Definition interp (x : float) (xp fp : list float) : result float :=
  match zip xp fp with
  | [] => Raise ValueError
  | (x0, f0) :: rest =>
      if negb (length xp =? length fp)%nat then Raise ValueError
      else
        let fN := List.last fp f0 in
        match rest with
        | [] => Ok (if x <? x0 then f0 else if x0 <? x then fN else f0)
        | _ :: _ =>
            if is_nan x then Ok x
            else if List.last xp x0 <? x then Ok fN
            else if x <? x0 then Ok f0
            else Ok (interp_scan x x0 f0 rest)
        end
  end.

End Np.

(** ** The random number generator *)

(** [numpy.random.Generator], by the three entry points the code uses:
    [default_rng(seed)], [rng.uniform(low, high)] and [rng.choice(a, p=p)].
    [bitgen] is the state of the underlying bit generator. *)
Class Generator (bitgen : Type) : Type := {
  default_rng : Z -> result bitgen;
  rng_uniform : float -> float -> M bitgen float;
  rng_choice : list string -> list float -> M bitgen string
}.

(** [scipy.spatial.transform.Rotation]: [from_rotvec] builds the unit
    quaternion of a rotation vector, [apply] multiplies a vector by the
    rotation matrix of the quaternion.  SciPy computes the norm and the
    matrix product in its own code, as sums of three products. *)
Module SciPy.

Import Np.
Local Open Scope float_scope.

Record Rotation : Type := Quat { qx : float; qy : float; qz : float; qw : float }.

Definition from_rotvec `{Libm} (rotvec : vec3) : Rotation :=
  let angle := sqrt (sum_prod rotvec rotvec) in
  let scale :=
    if angle <=? 1e-3 then
      let angle2 := angle * angle in
      0.5 - angle2 / 48 + angle2 * angle2 / 3840
    else sin (angle / 2) / angle in
  let '(r0, r1, r2) := rotvec in
  Quat (scale * r0) (scale * r1) (scale * r2) (cos (angle / 2)).

Definition as_matrix (q : Rotation) : vec3 * vec3 * vec3 :=
  let '(Quat x y z w) := q in
  let x2 := x * x in let y2 := y * y in
  let z2 := z * z in let w2 := w * w in
  let xy := x * y in let zw := z * w in
  let xz := x * z in let yw := y * w in
  let yz := y * z in let xw := x * w in
  ((x2 - y2 - z2 + w2, 2 * (xy - zw), 2 * (xz + yw)),
   (2 * (xy + zw), - x2 + y2 - z2 + w2, 2 * (yz - xw)),
   (2 * (xz - yw), 2 * (yz + xw), - x2 - y2 + z2 + w2)).

Definition apply (q : Rotation) (v : vec3) : vec3 :=
  let '(row0, row1, row2) := as_matrix q in
  (sum_prod row0 v, sum_prod row1 v, sum_prod row2 v).

End SciPy.

(** ** The generator: [class eES_Gen] *)

Import Np.

(** What [readSnowglobesTxtFile] returns for one file: the neutrino energies
    in MeV, the event rate of each energy bin and the total event rate. *)
Definition table : Type := list float * list float * float.

(** The attributes of an [eES_Gen] object other than [self.rng], whose state
    is the state of the monad [M bitgen]. *)
Record eES_Gen : Type := {
  flavors : list string;
  nuEnergyBins : list float;
  eventRates : gmap string (list float);
  totalRates : gmap string float
}.

(** The event dictionary [genEvent] returns. *)
Record event : Type := {
  flavor : string;
  nuEnergy : float;
  sn_direction : vec3;
  eKE : float;
  eDir : vec3
}.

Definition the_flavors : list string :=
  ["nue"; "nuebar"; "numu"; "numubar"; "nutau"; "nutaubar"].

(** A dictionary lookup [d[k]] and a list lookup [l[i]]. *)
Definition getitem {V} (d : gmap string V) (k : string) : result V :=
  match d !! k with
  | Some v => Ok v
  | None => Raise KeyError
  end.

Definition getindex {A} (l : list A) (i : nat) : result A :=
  match l !! i with
  | Some v => Ok v
  | None => Raise IndexError
  end.

(** [flavor in self.flavors]. *)
Definition is_flavor (g : eES_Gen) (f : string) : bool :=
  bool_decide (f ∈ flavors g).

(** The remaining number of rejections [rejectionSampling] tolerates when
    its counter is [nIter]: the measure its loop decreases. *)
Definition remaining (nIter : Z) : nat := Z.to_nat (1001 - nIter).

Lemma remaining_decreases nIter :
  (1000 <? nIter + 1)%Z = false -> remaining (nIter + 1) < remaining nIter.
Proof. intros H%Z.ltb_ge. unfold remaining. lia. Qed.

Section Generator.

Context {bitgen : Type} `{Generator bitgen} `{Libm} `{Blas}.

Local Open Scope float_scope.

(** [__init__], from [snowglobesData] on: reading the six files is outside
    the sampling core.  [fresh] is the state [np.random.default_rng()]
    makes from the operating system's entropy. *)
Definition __init__ (snowglobesData : list table) (seed : Z) (fresh : bitgen)
  : result (eES_Gen * bitgen) :=
  let flavors := the_flavors in
  first ← getindex snowglobesData 0;
  let nuEnergyBins := first.1.1 in
  rates ← mapM (fun i => t ← getindex snowglobesData i; mret (t.1.2))
               (seq 0 (length flavors));
  totals ← mapM (fun i => t ← getindex snowglobesData i; mret (t.2))
                (seq 0 (length flavors));
  rng ← (if (seed =? -1)%Z then Ok fresh else default_rng seed);
  mret ({| flavors := flavors;
           nuEnergyBins := nuEnergyBins;
           eventRates := list_to_map (zip flavors rates);
           totalRates := list_to_map (zip flavors totals) |}, rng).

Definition getEventRate (g : eES_Gen) (flavor : string) (nuEnergy : float)
  : result float :=
  if is_flavor g flavor then
    rates ← getitem (eventRates g) flavor;
    interp nuEnergy (nuEnergyBins g) rates
  else Raise (AssertionError FlavorNotRecognized).

Definition getTotalRate (g : eES_Gen) (flavor : string) : result float :=
  getitem (totalRates g) flavor.

(** One pass of the [while True] loop of [rejectionSampling]: the candidate
    [x] and whether [y < func(x)]. *)
Definition attempt (func : float -> result float) (xmin xmax ymax : float)
  : M bitgen (float * bool) :=
  x ← rng_uniform xmin xmax;
  y ← rng_uniform 0 ymax;
  fx ← lift (func x);
  mret (x, y <? fx).

Equations rejection_loop (func : float -> result float)
    (xmin xmax ymax : float) (nIter : Z) (s : bitgen)
  : result float * bitgen by wf (remaining nIter) lt :=
  rejection_loop func xmin xmax ymax nIter s
    with attempt func xmin xmax ymax s := {
    | (Raise e, s') => (Raise e, s')
    | (Ok (x, true), s') => (Ok x, s')
    | (Ok (x, false), s') with inspect (1000 <? nIter + 1)%Z := {
        | exist _ true _ => (Raise RuntimeError, s')
        | exist _ false Hcap =>
            rejection_loop func xmin xmax ymax (nIter + 1)%Z s' } }.
Next Obligation. apply remaining_decreases. assumption. Qed.

Definition rejectionSampling (func : float -> result float)
    (xmin xmax ymax : float) : M bitgen float :=
  rejection_loop func xmin xmax ymax 0.

Definition selectNu (g : eES_Gen) (flavor : option string)
    (nuThreshold : float) : M bitgen (string * float) :=
  flavor ← match flavor with
           | None =>
               flavorWeights ← lift (mapM (getitem (totalRates g)) (flavors g));
               let total := sum flavorWeights in
               let flavorWeights := (fun w => w / total) <$> flavorWeights in
               rng_choice (flavors g) flavorWeights
           | Some flavor => mret flavor
           end;
  _ ← assert_ (is_flavor g flavor) FlavorNotRecognized;
  rates ← lift (getitem (eventRates g) flavor);
  maxEventRate ← lift (max rates);
  minBin ← lift (min (nuEnergyBins g));
  let minEnergy := Py.max minBin nuThreshold in
  maxBin ← lift (max (nuEnergyBins g));
  nuEnergy ← rejectionSampling (fun x => getEventRate g flavor x)
                               minEnergy maxBin maxEventRate;
  mret (flavor, nuEnergy).

(** The constants and the local function of [genEvent]. *)
Definition WMA : float := 0.23122.
Definition me : float := 0.510998910.
Definition pi : float := 3.141592653589793.

(** The [if genFlavor == ...] chain: [(ga, gv)]. *)
Definition couplings (genFlavor : string) : float * float :=
  if String.eqb genFlavor "nue" then (0.5, 2 * WMA + 1 / 2)
  else if String.eqb genFlavor "nuebar" then (-0.5, 2 * WMA + 1 / 2)
  else if String.eqb genFlavor "numu" || String.eqb genFlavor "nutau"
    then (-0.5, 2 * WMA - 1 / 2)
  else (0.5, 2 * WMA - 1 / 2).

Definition diff_xscn (ga gv nuEnergy T : float) : result float :=
  a ← Py.pow2 (gv + ga);
  b ← Py.pow2 (gv - ga);
  q ← Py.div T nuEnergy;
  c ← Py.pow2 (1 - q);
  ga2 ← Py.pow2 ga;
  gv2 ← Py.pow2 gv;
  nu2 ← Py.pow2 nuEnergy;
  r ← Py.div (me * T) nu2;
  mret (a + b * c + (ga2 - gv2) * r).

Definition maxKE (nuEnergy : float) : result float :=
  nu2 ← Py.pow2 nuEnergy;
  Py.div (2 * nu2) (me + 2 * nuEnergy).

Definition eCos (nuEnergy eKE : float) : result float :=
  a ← Py.div (nuEnergy + me) nuEnergy;
  b ← Py.div eKE (eKE + 2 * me);
  c ← Py.pow_half b;
  mret (a * c).

(** The recoil direction about the z axis, before the rotation. *)
Definition eDir_z (eCos ePhi : float) : result vec3 :=
  c2 ← Py.pow2 eCos;
  mret (sqrt (1 - c2) * cos ePhi, sqrt (1 - c2) * sin ePhi, eCos).

Definition zaxis : vec3 := (0, 0, 1).

(** The rotation from the z axis to the normalised supernova direction. *)
Definition rotAxis (sn_direction : vec3) : vec3 :=
  let rotAxis := cross zaxis sn_direction in
  vdiv rotAxis (norm rotAxis).

Definition rotAngle (sn_direction : vec3) : float :=
  arccos (dot sn_direction zaxis).

Definition rot (sn_direction : vec3) : SciPy.Rotation :=
  SciPy.from_rotvec (vscale (rotAngle sn_direction) (rotAxis sn_direction)).

(** The supernova direction before it is normalised: the caller's, or
    [rng.uniform(-1, 1, size=3)], three draws in a row. *)
Definition direction (sn_direction : option vec3) : M bitgen vec3 :=
  match sn_direction with
  | None =>
      x ← rng_uniform (-1) 1;
      y ← rng_uniform (-1) 1;
      z ← rng_uniform (-1) 1;
      mret (x, y, z)
  | Some v => mret v
  end.

Definition genEvent (g : eES_Gen) (sn_direction : option vec3)
    (flavor : option string) (eThreshold nuThreshold : float)
  : M bitgen event :=
  '(genFlavor, nuEnergy) ← selectNu g flavor nuThreshold;
  sn_direction ← direction sn_direction;
  let sn_direction := vdiv sn_direction (norm sn_direction) in
  let rot := rot sn_direction in
  let '(ga, gv) := couplings genFlavor in
  maxDiffXscn ← lift (diff_xscn ga gv nuEnergy 0);
  maxKE ← lift (maxKE nuEnergy);
  eKE ← rejectionSampling (diff_xscn ga gv nuEnergy) eThreshold maxKE maxDiffXscn;
  eCos ← lift (eCos nuEnergy eKE);
  _ ← assert_ ((-1 <=? eCos) && (eCos <=? 1)) ECosOutOfRange;
  ePhi ← rng_uniform 0 (2 * pi);
  eDir ← lift (eDir_z eCos ePhi);
  let eDir := SciPy.apply rot eDir in
  _ ← assert_ (isclose (dot eDir sn_direction) eCos) DotProductMismatch;
  mret {| flavor := genFlavor;
          nuEnergy := nuEnergy;
          sn_direction := sn_direction;
          eKE := eKE;
          eDir := eDir |}.

End Generator.

(** * The vocabulary of the properties *)

Section Vocabulary.

Context {bitgen : Type} `{Generator bitgen} `{Libm} `{Blas}.
Local Open Scope float_scope.

(** ** The formulas of the specification *)

(** The squares and the square root of the formulas are Python's [x ** 2]
    and [x ** 0.5]: [squared x] and [root x] are their values, where they
    raise nothing. *)
Definition squared (x : float) : float :=
  match Py.pow2 x with Ok r => r | Raise _ => nan end.

Definition root (x : float) : float :=
  match Py.pow_half x with Ok r => r | Raise _ => nan end.

(** The formulas of the specification, with these powers and the IEEE
    sums, products and quotients. *)
Definition eCos_formula (nuEnergy T : float) : float :=
  (nuEnergy + me) / nuEnergy * root (T / (T + 2 * me)).


Definition maxKE_formula (nuEnergy : float) : float :=
  2 * squared nuEnergy / (me + 2 * nuEnergy).

(** What the C libraries document of [pow]: an error below one unit in the
    last place, so that [pow(x, 2.0)] is the correctly rounded square
    [x * x] or one of the two floats next to it, and [pow(x, 0.5)] the
    correctly rounded square root or a float next to it. *)
Definition within_ulp (r x : float) : Prop :=
  r = x \/ r = next_up x \/ r = next_down x.

Definition pow_accurate : Prop :=
  (forall x, within_ulp (pow x 2) (x * x)) /\
  (forall x, within_ulp (pow x 0.5) (sqrt x)).

(** The square of an ordinary number, away from the overflow: the three
    values an accurate [pow] can return are finite. *)
Definition plain_square (x : float) : bool :=
  negb (is_nan x) && negb (is_infinity x) && negb (x =? 0)
  && negb (abs x =? 1)
  && negb (is_infinity (abs x * abs x))
  && negb (is_infinity (next_up (abs x * abs x)))
  && negb (is_infinity (next_down (abs x * abs x))).

(** [diff_xscn] as [genEvent] closes it over the couplings of a flavor. *)
Definition diff_xscn_of (genFlavor : string) (nuEnergy T : float) : result float :=
  let '(ga, gv) := couplings genFlavor in diff_xscn ga gv nuEnergy T.

(** ** Rate tables *)

(** The energy bins of a table increase strictly. *)
Fixpoint increasing (l : list float) : bool :=
  match l with
  | x :: ((y :: _) as l') => (x <? y) && increasing l'
  | _ => true
  end.

(** ** The random number source *)

(** What the documentation of [Generator.uniform] promises: a sample of
    [rng.uniform(low, high)] lies between [low] and [high]. *)
Definition uniform_in_range : Prop :=
  forall low high (s : bitgen) x s',
    rng_uniform low high s = (Ok x, s') ->
    (low <=? x) = true /\ (x <=? high) = true.

(** ** Runs of the rejection loop *)

Section Attempts.

Variables (func : float -> result float) (xmin xmax ymax : float).

(** [rejected n s s']: from state [s], [n] candidates in a row are drawn
    and rejected, which leaves the source in state [s']. *)
Inductive rejected : nat -> bitgen -> bitgen -> Prop :=
| rejected_O s : rejected 0 s s
| rejected_S n s x s1 s2 :
    attempt func xmin xmax ymax s = (Ok (x, false), s1) -> rejected n s1 s2 ->
    rejected (S n) s s2.

Fixpoint reject_run (n : nat) (s : bitgen) : option bitgen :=
  match n with
  | O => Some s
  | S n' =>
      match attempt func xmin xmax ymax s with
      | (Ok (_, false), s1) => reject_run n' s1
      | _ => None
      end
  end.

(** How a run of the loop ends: on the first accepted candidate, on an
    exception of a draw or of [func], or on the rejection that takes the
    counter past 1000. *)
Inductive outcome (nIter : Z) (s : bitgen) : result float -> bitgen -> Prop :=
| outcome_accept n s1 x s' :
    (nIter + Z.of_nat n <= 1000)%Z -> rejected n s s1 ->
    attempt func xmin xmax ymax s1 = (Ok (x, true), s') -> outcome nIter s (Ok x) s'
| outcome_raise n s1 e s' :
    (nIter + Z.of_nat n <= 1000)%Z -> rejected n s s1 ->
    attempt func xmin xmax ymax s1 = (Raise e, s') -> outcome nIter s (Raise e) s'
| outcome_cap s' :
    rejected (remaining nIter) s s' -> outcome nIter s (Raise RuntimeError) s'.

End Attempts.

(** ** Runs of [selectNu] and [genEvent] *)

(** A successful [selectNu]: the flavor is the caller's when one is given and
    the generator's choice otherwise, it is one of [self.flavors], and the
    energy is sampled between the threshold and the last bin. *)
Inductive selected (g : eES_Gen) (flavor : option string) (nuThreshold : float)
    (s : bitgen) : string -> float -> bitgen -> Prop :=
| selected_intro genFlavor s0 rates maxEventRate minBin maxBin nuEnergy s1 :
    match flavor with
    | Some f => genFlavor = f /\ s0 = s
    | None =>
        exists flavorWeights,
          mapM (getitem (totalRates g)) (flavors g) = Ok flavorWeights /\
          rng_choice (flavors g)
            ((fun w => w / sum flavorWeights) <$> flavorWeights) s
          = (Ok genFlavor, s0)
    end ->
    genFlavor ∈ flavors g ->
    eventRates g !! genFlavor = Some rates ->
    max rates = Ok maxEventRate ->
    min (nuEnergyBins g) = Ok minBin ->
    max (nuEnergyBins g) = Ok maxBin ->
    rejectionSampling (getEventRate g genFlavor)
      (Py.max minBin nuThreshold) maxBin maxEventRate s0 = (Ok nuEnergy, s1) ->
    selected g flavor nuThreshold s genFlavor nuEnergy s1.

(** A successful [genEvent], step by step. *)
Inductive generated (g : eES_Gen) (sn : option vec3) (flavor : option string)
    (eThreshold nuThreshold : float) (s : bitgen) : event -> bitgen -> Prop :=
| generated_intro genFlavor nuEnergy s1 v s2 ga gv maxDiffXscn maxKE_
    eKE_ s3 eCos_ ePhi s4 eDir0 :
    selectNu g flavor nuThreshold s = (Ok (genFlavor, nuEnergy), s1) ->
    direction sn s1 = (Ok v, s2) ->
    couplings genFlavor = (ga, gv) ->
    diff_xscn ga gv nuEnergy 0 = Ok maxDiffXscn ->
    maxKE nuEnergy = Ok maxKE_ ->
    rejectionSampling (diff_xscn ga gv nuEnergy) eThreshold maxKE_ maxDiffXscn s2
      = (Ok eKE_, s3) ->
    eCos nuEnergy eKE_ = Ok eCos_ ->
    (-1 <=? eCos_) && (eCos_ <=? 1) = true ->
    rng_uniform 0 (2 * pi) s3 = (Ok ePhi, s4) ->
    eDir_z eCos_ ePhi = Ok eDir0 ->
    isclose (dot (SciPy.apply (rot (vdiv v (norm v))) eDir0) (vdiv v (norm v)))
            eCos_ = true ->
    generated g sn flavor eThreshold nuThreshold s
      {| flavor := genFlavor;
         nuEnergy := nuEnergy;
         sn_direction := vdiv v (norm v);
         eKE := eKE_;
         eDir := SciPy.apply (rot (vdiv v (norm v))) eDir0 |} s4.

(** ** Sequences of calls *)

(** The arguments of one [genEvent] call. *)
Record call : Type := {
  call_sn_direction : option vec3;
  call_flavor : option string;
  call_eThreshold : float;
  call_nuThreshold : float
}.

(** A sequence of [genEvent] calls on one generator: what each call returns
    or raises, the random number source going from one call to the next. *)
Fixpoint genEvents (g : eES_Gen) (calls : list call) (s : bitgen)
  : list (result event) * bitgen :=
  match calls with
  | [] => ([], s)
  | c :: calls' =>
      let '(r, s1) := genEvent g (call_sn_direction c) (call_flavor c)
                        (call_eThreshold c) (call_nuThreshold c) s in
      let '(rs, s2) := genEvents g calls' s1 in
      (r :: rs, s2)
  end.

(** A generator is constructed and then called. *)
Definition session (snowglobesData : list table) (seed : Z) (fresh : bitgen)
    (calls : list call) : result (list (result event)) :=
  '(g, s) ← __init__ snowglobesData seed fresh;
  mret (genEvents g calls s).1.

Definition default_call : call :=
  {| call_sn_direction := None; call_flavor := None;
     call_eThreshold := 1; call_nuThreshold := 2 |}.

(** Two generators side by side.  Each object has a random number source
    of its own ([self.rng], made by [default_rng] in its constructor): a
    call on one generator advances its own source and leaves the other's
    where it is. *)
Inductive owner : Type := First | Second.

Definition owner_eqb (a b : owner) : bool :=
  match a, b with
  | First, First | Second, Second => true
  | _, _ => false
  end.

(** Calls on the two generators in any order: what each call returns or
    raises, with the generator it was made on. *)
Fixpoint interleaved (g1 g2 : eES_Gen) (schedule : list (owner * call))
    (s1 s2 : bitgen) : list (owner * result event) :=
  match schedule with
  | [] => []
  | (First, c) :: schedule' =>
      let '(r, s1') := genEvent g1 (call_sn_direction c) (call_flavor c)
                         (call_eThreshold c) (call_nuThreshold c) s1 in
      (First, r) :: interleaved g1 g2 schedule' s1' s2
  | (Second, c) :: schedule' =>
      let '(r, s2') := genEvent g2 (call_sn_direction c) (call_flavor c)
                         (call_eThreshold c) (call_nuThreshold c) s2 in
      (Second, r) :: interleaved g1 g2 schedule' s1 s2'
  end.

(** What belongs to one of the two generators, in order. *)
Definition of_owner {A} (w : owner) (l : list (owner * A)) : list A :=
  snd <$> filter (fun p => owner_eqb w p.1 = true) l.

(** Two generators are constructed, one after the other, and then called in
    the order of the schedule. *)
Definition two_sessions (snowglobesData : list table) (seed : Z)
    (fresh1 fresh2 : bitgen) (schedule : list (owner * call))
  : result (list (owner * result event)) :=
  '(g1, s1) ← __init__ snowglobesData seed fresh1;
  '(g2, s2) ← __init__ snowglobesData seed fresh2;
  mret (interleaved g1 g2 schedule s1 s2).

(** The vector a division of zero by zero leaves. *)
Definition nan3 : vec3 := (nan, nan, nan).

End Vocabulary.

(** * Loading the tables: [readSnowglobesTxtFile] and the constructor *)

(** What [np.genfromtxt] returns for a two-column file: an array of shape
    (n, 2), one pair per line, when the file has two lines or more, and a
    one-dimensional array when it has one line or none (NumPy squeezes the
    axis of length one). *)
Inductive ndarray : Type :=
| Array1 (l : list float)
| Array2 (rows : list (float * float)).

(** The two [assert] statements of [readSnowglobesTxtFile], and the
    [IndexError] of an index that the array does not have. *)
Inductive load_exn : Set :=
| FileDoesNotExist
| LastLineFormat
| ArrayIndexError.

Inductive loaded (A : Type) : Type :=
| Loaded (a : A)
| LoadFailed (e : load_exn).
Arguments Loaded {A} a.
Arguments LoadFailed {A} e.

#[export] Instance loaded_ret : MRet loaded := fun A a => Loaded a.
#[export] Instance loaded_bind : MBind loaded := fun A B f r =>
  match r with
  | Loaded a => f a
  | LoadFailed e => LoadFailed e
  end.

(** The slice [a[:-1]]: all the elements but the last one. *)
Definition but_last {A} (a : list A) : list A := take (length a - 1) a.

(** [readSnowglobesTxtFile(fileLocation)], on what the file system holds at
    [fileLocation]: nothing ([os.path.isfile] is false), or a file that
    [np.genfromtxt] parses to an array.  On a one-dimensional array
    [data[-1]] is missing or is a scalar, which [totalRate[0]] cannot
    index. *)
Definition readSnowglobesTxtFile (file : option ndarray) : loaded table :=
  match file with
  | None => LoadFailed FileDoesNotExist
  | Some (Array1 _) => LoadFailed ArrayIndexError
  | Some (Array2 data) =>
      let diffRates := but_last data in
      match last data with
      | None => LoadFailed ArrayIndexError
      | Some totalRate =>
          if is_nan totalRate.1 then
            let totalRate := totalRate.2 in
            let nuEnergy := (fun row => row.1 * 1e3)%float <$> diffRates in
            let eventRates := (fun row => row.2) <$> diffRates in
            Loaded (nuEnergy, eventRates, totalRate)
          else LoadFailed LastLineFormat
      end
  end.

(** [f'{dataDir}/{flux}_{flavor}_e_{detectorConfig}_events.dat']. *)
Definition filename (dataDir flux flavor detectorConfig : string) : string :=
  dataDir +:+ "/" +:+ flux +:+ "_" +:+ flavor +:+ "_e_" +:+ detectorConfig
    +:+ "_events.dat".

Section Constructor.

Context {bitgen : Type} `{Generator bitgen}.

(** The constructor [eES_Gen(dataDir, flux, detectorConfig, seed)] as a
    whole: the six files are read in the order of the flavors, then
    [__init__] goes on from [snowglobesData].  [fs] is the file system. *)
Definition construct (fs : string -> option ndarray)
    (dataDir flux detectorConfig : string) (seed : Z) (fresh : bitgen)
  : loaded (result (eES_Gen * bitgen)) :=
  let filenames :=
    (fun flavor => filename dataDir flux flavor detectorConfig) <$> the_flavors in
  snowglobesData ← mapM (fun filename => readSnowglobesTxtFile (fs filename))
                        filenames;
  mret (__init__ snowglobesData seed fresh).

End Constructor.

(** * The vocabulary of the tables and of the events *)

Section MoreVocabulary.

Local Open Scope float_scope.

(** A sampled neutrino energy inside the table and above the threshold. *)
Definition within_table (g : eES_Gen) (nuThreshold E : float) : Prop :=
  exists e0 eN,
    head (nuEnergyBins g) = Some e0 /\ last (nuEnergyBins g) = Some eN /\
    (e0 <=? E) = true /\ (E <=? eN) = true /\
    (is_nan nuThreshold = false -> (nuThreshold <=? E) = true).

(** The value of the cross-section shape at [T = 0]:
    [(gv + ga)^2 + (gv - ga)^2]. *)
Definition xscn_at_zero (genFlavor : string) : float :=
  let '(ga, gv) := couplings genFlavor in
  (gv + ga) * (gv + ga) + (gv - ga) * (gv - ga).

(** The numbers [diff_xscn(0)] squares in its first two terms: the sum and
    the difference of the couplings of each flavor, without their signs. *)
Definition coupling_sums : list float :=
  flat_map (fun genFlavor =>
              let '(ga, gv) := couplings genFlavor in
              [abs (gv + ga); abs (gv - ga)]) the_flavors.

(** No component of a vector is NaN. *)
Definition no_nan3 (v : vec3) : bool :=
  let '(x, y, z) := v in negb (is_nan x) && negb (is_nan y) && negb (is_nan z).

(** The generator [__init__] makes of six tables or more. *)
Definition tables_gen (snowglobesData : list table) : eES_Gen := {|
  flavors := the_flavors;
  nuEnergyBins := default [] ((fun t => t.1.1) <$> head snowglobesData);
  eventRates := list_to_map (zip the_flavors ((fun t => t.1.2) <$> take 6 snowglobesData));
  totalRates := list_to_map (zip the_flavors ((fun t => t.2) <$> take 6 snowglobesData))
|}.

End MoreVocabulary.

(** * IEEE 754 binary64 facts

    The kernel computes with closed floats; facts about an arbitrary float
    go through [Prim2SF] and the specification of each operation. *)

Module F64.

Local Open Scope float_scope.

Lemma Prim2SF_nan : Prim2SF nan = S754_nan.
Proof. reflexivity. Qed.

Ltac to_spec :=
  apply Prim2SF_inj;
  rewrite ?add_spec, ?sub_spec, ?mul_spec, ?div_spec, ?Prim2SF_nan.

Lemma add_nan_l x : nan + x = nan.
Proof. to_spec. reflexivity. Qed.

Lemma add_nan_r x : x + nan = nan.
Proof. to_spec. destruct (Prim2SF x); reflexivity. Qed.

Lemma sub_nan_l x : nan - x = nan.
Proof. to_spec. reflexivity. Qed.

Lemma sub_nan_r x : x - nan = nan.
Proof. to_spec. destruct (Prim2SF x); reflexivity. Qed.

Lemma mul_nan_l x : nan * x = nan.
Proof. to_spec. reflexivity. Qed.

Lemma mul_nan_r x : x * nan = nan.
Proof. to_spec. destruct (Prim2SF x); reflexivity. Qed.

Lemma div_nan_l x : nan / x = nan.
Proof. to_spec. reflexivity. Qed.

Lemma div_nan_r x : x / nan = nan.
Proof. to_spec. destruct (Prim2SF x); reflexivity. Qed.

Lemma leb_nan_l x : (nan <=? x) = false.
Proof. rewrite FloatAxioms.leb_spec. reflexivity. Qed.

Lemma ltb_nan_l x : (nan <? x) = false.
Proof. rewrite FloatAxioms.ltb_spec. reflexivity. Qed.

Lemma eqb_nan_l x : (nan =? x) = false.
Proof. rewrite FloatAxioms.eqb_spec. reflexivity. Qed.

(** The order of the comparison operators, read on [SFcompare]. *)

Definition cmp (x y : float) : option comparison :=
  SFcompare (Prim2SF x) (Prim2SF y).

Lemma ltb_cmp x y : (x <? y) = true <-> cmp x y = Some Lt.
Proof.
  rewrite FloatAxioms.ltb_spec. unfold SFltb, cmp.
  destruct (SFcompare _ _) as [[]|]; split; congruence.
Qed.

Lemma eqb_cmp x y : (x =? y) = true <-> cmp x y = Some Eq.
Proof.
  rewrite FloatAxioms.eqb_spec. unfold SFeqb, cmp.
  destruct (SFcompare _ _) as [[]|]; split; congruence.
Qed.

Lemma leb_cmp x y :
  (x <=? y) = true <-> cmp x y = Some Lt \/ cmp x y = Some Eq.
Proof.
  rewrite FloatAxioms.leb_spec. unfold SFleb, cmp.
  destruct (SFcompare _ _) as [[]|]; split; intros; try tauto;
    try congruence; destruct H; congruence.
Qed.

Lemma pos_cmp_cont_lt m1 m2 :
  PosDef.Pos.compare_cont Eq m1 m2 = Lt <-> (Z.pos m1 < Z.pos m2)%Z.
Proof. reflexivity. Qed.

Lemma pos_cmp_cont_gt m1 m2 :
  PosDef.Pos.compare_cont Eq m1 m2 = Gt <-> (Z.pos m2 < Z.pos m1)%Z.
Proof. apply Pos.compare_gt_iff. Qed.

Lemma pos_cmp_cont_eq m1 m2 :
  PosDef.Pos.compare_cont Eq m1 m2 = Eq <-> m1 = m2.
Proof. apply Pos.compare_eq_iff. Qed.

(** [SFcompare] orders finite numbers by sign, exponent and mantissa: a
    key in [Z * Z] ordered lexicographically turns its case analysis into
    linear arithmetic. *)

Definition key (f : spec_float) : option (Z * Z * Z) :=
  match f with
  | S754_zero _ => Some (0, 0, 0)%Z
  | S754_infinity s => Some (if s then (-2) else 2, 0, 0)%Z
  | S754_nan => None
  | S754_finite s m e =>
      Some (if s then (-1, - e, - Z.pos m) else (1, e, Z.pos m))%Z
  end.

Definition key_lt (a b : Z * Z * Z) : Prop :=
  let '(a1, a2, a3) := a in
  let '(b1, b2, b3) := b in
  (a1 < b1 \/ (a1 = b1 /\ (a2 < b2 \/ (a2 = b2 /\ a3 < b3))))%Z.

Lemma SFcompare_lt f1 f2 :
  SFcompare f1 f2 = Some Lt <->
  exists k1 k2, key f1 = Some k1 /\ key f2 = Some k2 /\ key_lt k1 k2.
Proof.
  split.
  - destruct f1 as [s1|s1| |s1 m1 e1], f2 as [s2|s2| |s2 m2 e2];
      simpl; try discriminate;
      try (destruct s1; try discriminate);
      try (destruct s2; try discriminate);
      intros H; try (eexists _, _; repeat split; simpl; lia).
    + destruct (Z.compare_spec e1 e2); try discriminate;
        eexists _, _; repeat split; simpl; try lia.
      injection H as H. apply CompOpp_iff in H. simpl in H.
      pose proof (proj1 (pos_cmp_cont_gt _ _) H). lia.
    + destruct (Z.compare_spec e1 e2); try discriminate;
        eexists _, _; repeat split; simpl; try lia.
      injection H as H. pose proof (proj1 (pos_cmp_cont_lt _ _) H). lia.
  - intros (k1 & k2 & H1 & H2 & H).
    destruct f1 as [s1|s1| |s1 m1 e1], f2 as [s2|s2| |s2 m2 e2];
      simpl in *; try discriminate;
      try (destruct s1); try (destruct s2);
      injection H1 as <-; injection H2 as <-; simpl in H;
      try reflexivity; try lia.
    + destruct (Z.compare_spec e1 e2); try lia.
      * f_equal. apply CompOpp_iff. simpl. apply pos_cmp_cont_gt. lia.
      * reflexivity.
    + destruct (Z.compare_spec e1 e2); try lia.
      * f_equal. apply pos_cmp_cont_lt. lia.
      * reflexivity.
Qed.

Lemma SFcompare_eq f1 f2 :
  SFcompare f1 f2 = Some Eq <->
  exists k, key f1 = Some k /\ key f2 = Some k.
Proof.
  split.
  - destruct f1 as [s1|s1| |s1 m1 e1], f2 as [s2|s2| |s2 m2 e2];
      simpl; try discriminate;
      try (destruct s1; try discriminate);
      try (destruct s2; try discriminate);
      intros H; try (eexists; split; reflexivity).
    + destruct (Z.compare_spec e1 e2); try discriminate.
      injection H as H. apply CompOpp_iff in H. simpl in H.
      pose proof (proj1 (pos_cmp_cont_eq _ _) H). subst. eexists; split; reflexivity.
    + destruct (Z.compare_spec e1 e2); try discriminate.
      injection H as H. pose proof (proj1 (pos_cmp_cont_eq _ _) H). subst.
      eexists; split; reflexivity.
  - intros (k & H1 & H2). rewrite <- H2 in H1.
    destruct f1 as [s1|s1| |s1 m1 e1], f2 as [s2|s2| |s2 m2 e2];
      simpl in *; try discriminate;
      try (destruct s1); try (destruct s2);
      try discriminate; try reflexivity.
    + assert (e1 = e2) by (injection H1; lia).
      assert (m1 = m2) by (injection H1; lia). subst.
      rewrite Z.compare_refl, Pos.compare_cont_refl. reflexivity.
    + assert (e1 = e2) by (injection H1; lia).
      assert (m1 = m2) by (injection H1; lia). subst.
      rewrite Z.compare_refl, Pos.compare_cont_refl. reflexivity.
Qed.

Lemma key_lt_trans a b c : key_lt a b -> key_lt b c -> key_lt a c.
Proof. destruct a as [[??]?], b as [[??]?], c as [[??]?]. simpl. lia. Qed.

Lemma key_lt_irrefl a : ~ key_lt a a.
Proof. destruct a as [[??]?]. simpl. lia. Qed.

Lemma cmp_lt x y :
  (x <? y) = true <->
  exists k1 k2, key (Prim2SF x) = Some k1 /\ key (Prim2SF y) = Some k2 /\ key_lt k1 k2.
Proof. rewrite ltb_cmp. apply SFcompare_lt. Qed.

Lemma cmp_eq x y :
  (x =? y) = true <->
  exists k, key (Prim2SF x) = Some k /\ key (Prim2SF y) = Some k.
Proof. rewrite eqb_cmp. apply SFcompare_eq. Qed.

Lemma cmp_le x y :
  (x <=? y) = true <->
  exists k1 k2, key (Prim2SF x) = Some k1 /\ key (Prim2SF y) = Some k2 /\
                (key_lt k1 k2 \/ k1 = k2).
Proof.
  rewrite leb_cmp. unfold cmp. rewrite SFcompare_lt, SFcompare_eq. split.
  - intros [(k1 & k2 & ? & ? & ?) | (k & ? & ?)]; eauto 10.
  - intros (k1 & k2 & ? & ? & [? | ->]); eauto 10.
Qed.

(** A number: a float that is not NaN, the only float not equal to itself. *)
Definition number (x : float) : Prop := (x =? x) = true.

Lemma number_key x : number x <-> exists k, key (Prim2SF x) = Some k.
Proof.
  unfold number. rewrite cmp_eq. split.
  - intros (k & ? & _). eauto.
  - intros (k & ?). eauto.
Qed.

Lemma number_is_nan x : number x <-> is_nan x = false.
Proof. unfold number, is_nan. destruct (x =? x); simpl; split; congruence. Qed.

Lemma ltb_trans x y z : (x <? y) = true -> (y <? z) = true -> (x <? z) = true.
Proof.
  rewrite !cmp_lt. intros (k1 & k2 & H1 & H2 & H12) (k2' & k3 & H2' & H3 & H23).
  rewrite H2 in H2'. injection H2' as <-.
  exists k1, k3. eauto using key_lt_trans.
Qed.

Lemma ltb_irrefl x : (x <? x) = false.
Proof.
  destruct (x <? x) eqn:E; [|reflexivity].
  apply cmp_lt in E as (k1 & k2 & H1 & H2 & H12).
  rewrite H1 in H2. injection H2 as <-. destruct (key_lt_irrefl _ H12).
Qed.

Lemma ltb_asym x y : (x <? y) = true -> (y <? x) = false.
Proof.
  intros Hxy. destruct (y <? x) eqn:E; [|reflexivity].
  rewrite <- (ltb_irrefl x). symmetry. eapply ltb_trans; eassumption.
Qed.

Lemma ltb_number_l x y : (x <? y) = true -> number x.
Proof. rewrite cmp_lt, number_key. intros (k1 & k2 & ? & _). eauto. Qed.

Lemma ltb_number_r x y : (x <? y) = true -> number y.
Proof. rewrite cmp_lt, number_key. intros (k1 & k2 & _ & ? & _). eauto. Qed.

Lemma ltb_eqb x y : (x <? y) = true -> (x =? y) = false.
Proof.
  intros Hxy. destruct (x =? y) eqn:E; [|reflexivity].
  apply cmp_lt in Hxy as (k1 & k2 & H1 & H2 & H12).
  apply cmp_eq in E as (k & H1' & H2').
  rewrite H1 in H1'. rewrite H2 in H2'.
  injection H1' as ->. injection H2' as ->. destruct (key_lt_irrefl _ H12).
Qed.

Lemma leb_number_l x y : (x <=? y) = true -> number x.
Proof. rewrite cmp_le, number_key. intros (k1 & k2 & ? & _). eauto. Qed.

Lemma leb_number_r x y : (x <=? y) = true -> number y.
Proof. rewrite cmp_le, number_key. intros (k1 & k2 & _ & ? & _). eauto. Qed.

Lemma leb_refl x : number x -> (x <=? x) = true.
Proof. rewrite cmp_le, number_key. intros (k & ?). eauto 10. Qed.

Lemma ltb_leb x y : (x <? y) = true -> (x <=? y) = true.
Proof.
  rewrite cmp_lt, cmp_le. intros (k1 & k2 & ? & ? & ?). eauto 10.
Qed.

Lemma ltb_eqb_r x y : (x <? y) = true -> (y =? x) = false.
Proof.
  intros Hxy. destruct (y =? x) eqn:E; [|reflexivity].
  apply cmp_lt in Hxy as (k1 & k2 & H1 & H2 & H12).
  apply cmp_eq in E as (k & H2' & H1').
  rewrite H1 in H1'. rewrite H2 in H2'.
  injection H1' as ->. injection H2' as ->. destruct (key_lt_irrefl _ H12).
Qed.

(** The only infinity above zero is [infinity]. *)
Lemma is_infinity_pos x : is_infinity x = true -> (0 <? x) = true -> x = infinity.
Proof.
  unfold is_infinity. rewrite FloatAxioms.eqb_spec, abs_spec, FloatAxioms.ltb_spec.
  intros Hinf Hpos. apply Prim2SF_inj.
  change (Prim2SF infinity) with (S754_infinity false) in *.
  change (Prim2SF 0) with (S754_zero false) in *.
  destruct (Prim2SF x) as [s|s| |s m e]; try discriminate.
  destruct s; [discriminate | reflexivity].
Qed.

Lemma opp_nan : (- nan) = nan.
Proof. reflexivity. Qed.

Lemma abs_nan : abs nan = nan.
Proof. reflexivity. Qed.

Lemma sqrt_nan : sqrt nan = nan.
Proof. reflexivity. Qed.

(** NaN is absorbing: rewriting with these lemmas turns any arithmetic
    expression with a NaN operand into NaN. *)
Ltac absorb_nan :=
  repeat first
    [ rewrite add_nan_l | rewrite add_nan_r | rewrite sub_nan_l
    | rewrite sub_nan_r | rewrite mul_nan_l | rewrite mul_nan_r
    | rewrite div_nan_l | rewrite div_nan_r | rewrite opp_nan
    | rewrite abs_nan | rewrite sqrt_nan ].

(** A zero of either sign, or NaN: what a zero becomes under the operations
    below. *)
Definition zero_or_nan (x : float) : Prop :=
  (exists s, Prim2SF x = S754_zero s) \/ Prim2SF x = S754_nan.

Ltac spec_of_ops :=
  repeat first
    [ rewrite div_spec | rewrite sqrt_spec | rewrite add_spec
    | rewrite mul_spec | rewrite sub_spec ];
  change (Prim2SF 0) with (S754_zero false);
  change (Prim2SF 1) with (S754_finite false 4503599627370496 (-52));
  change (Prim2SF nan) with S754_nan.

Lemma eqb_0_zero_or_nan x : (x =? 0) = true -> zero_or_nan x.
Proof.
  rewrite FloatAxioms.eqb_spec. change (Prim2SF 0) with (S754_zero false).
  destruct (Prim2SF x) as [s|s| |s m e] eqn:Hx; try discriminate.
  - intros _. left. eauto.
  - destruct s; discriminate.
  - destruct s; discriminate.
Qed.

Lemma div_zero_or_nan x n : zero_or_nan x -> zero_or_nan (x / n).
Proof.
  unfold zero_or_nan. rewrite div_spec.
  intros [[s ->] | ->]; destruct (Prim2SF n) as [sn|sn| |sn mn en];
    simpl; eauto.
Qed.

End F64.

(** ** More on the order of floats *)

Module F64Order.
Import F64.
Local Open Scope float_scope.

Lemma key_lt_total a b : key_lt a b \/ a = b \/ key_lt b a.
Proof.
  destruct a as [[a1 a2] a3], b as [[b1 b2] b3]. simpl.
  destruct (Z.lt_trichotomy a1 b1) as [?|[->|?]]; [lia| |lia].
  destruct (Z.lt_trichotomy a2 b2) as [?|[->|?]]; [lia| |lia].
  destruct (Z.lt_trichotomy a3 b3) as [?|[->|?]]; [lia| |lia].
  right. left. reflexivity.
Qed.

Lemma leb_trans x y z : (x <=? y) = true -> (y <=? z) = true -> (x <=? z) = true.
Proof.
  rewrite !cmp_le. intros (k1 & k2 & H1 & H2 & H12) (k2' & k3 & H2' & H3 & H23).
  rewrite H2 in H2'. injection H2' as <-.
  exists k1, k3. split; [exact H1|]. split; [exact H3|].
  destruct H12 as [H12 | ->], H23 as [H23 | ->]; eauto using key_lt_trans.
Qed.

Lemma leb_ltb_trans x y z : (x <=? y) = true -> (y <? z) = true -> (x <? z) = true.
Proof.
  rewrite cmp_le, !cmp_lt. intros (k1 & k2 & H1 & H2 & H12) (k2' & k3 & H2' & H3 & H23).
  rewrite H2 in H2'. injection H2' as <-.
  exists k1, k3. split; [exact H1|]. split; [exact H3|].
  destruct H12 as [H12 | ->]; eauto using key_lt_trans.
Qed.

Lemma ltb_leb_trans x y z : (x <? y) = true -> (y <=? z) = true -> (x <? z) = true.
Proof.
  rewrite cmp_le, !cmp_lt. intros (k1 & k2 & H1 & H2 & H12) (k2' & k3 & H2' & H3 & H23).
  rewrite H2 in H2'. injection H2' as <-.
  exists k1, k3. split; [exact H1|]. split; [exact H3|].
  destruct H23 as [H23 | <-]; eauto using key_lt_trans.
Qed.

Lemma not_ltb_leb x y :
  number x -> number y -> (x <? y) = false -> (y <=? x) = true.
Proof.
  rewrite !number_key, cmp_le. intros (k1 & H1) (k2 & H2) Hnlt.
  exists k2, k1. split; [exact H2|]. split; [exact H1|].
  destruct (key_lt_total k1 k2) as [Hlt | [-> | Hgt]]; auto.
  assert ((x <? y) = true) as Hlt' by (apply cmp_lt; eauto).
  congruence.
Qed.

(** NaN is one float: every float that is not a number is [nan]. *)
Lemma is_nan_eq x : is_nan x = true -> x = nan.
Proof.
  intros Hnan. apply Prim2SF_inj. rewrite Prim2SF_nan.
  destruct (Prim2SF x) as [s|s| |s m e] eqn:Hx; [| |reflexivity|];
    exfalso; (assert (number x) as Hnum%number_is_nan
                by (apply number_key; rewrite Hx; simpl; eauto));
    congruence.
Qed.

Lemma number_nan : ~ number nan.
Proof. unfold number. rewrite eqb_nan_l. discriminate. Qed.

End F64Order.

(** ** The sum of products rounded term by term

    It has what is asked of a dot product of BLAS. *)

Section SumProd.

Import F64 F64Order.
Local Open Scope float_scope.

Lemma eqb_0_zero x : (x =? 0) = true -> exists s, Prim2SF x = S754_zero s.
Proof.
  intros Hx. destruct (eqb_0_zero_or_nan _ Hx) as [[s Hs] | Hnan]; [eauto|].
  rewrite FloatAxioms.eqb_spec, Hnan in Hx. discriminate.
Qed.

Lemma zero_eqb_0 x s : Prim2SF x = S754_zero s -> (x =? 0) = true.
Proof.
  intros Hx. rewrite FloatAxioms.eqb_spec, Hx. destruct s; reflexivity.
Qed.

Lemma zero_square x : (x =? 0) = true -> x * x = 0.
Proof.
  intros [s Hs]%eqb_0_zero. apply Prim2SF_inj. rewrite mul_spec, Hs.
  destruct s; reflexivity.
Qed.

(** A square is never the negative zero. *)
Lemma SFmul_self_sign f : SFmul prec emax f f <> S754_zero true.
Proof.
  destruct f as [s|s| |s m e]; simpl;
    [destruct s; discriminate | destruct s; discriminate | discriminate |].
  unfold binary_round_aux.
  repeat match goal with
         | |- context [shr_fexp ?p ?em ?m ?e ?l] =>
             destruct (shr_fexp p em m e l) as [? ?]
         end.
  match goal with
  | |- context [shr_m ?r] =>
      destruct (shr_m r); [|destruct (_ <=? _)%Z|]
  end; destruct s; discriminate.
Qed.

Lemma square_add_0 x : x * x + 0 = x * x.
Proof.
  apply Prim2SF_inj. rewrite add_spec, mul_spec.
  change (Prim2SF 0) with (S754_zero false). unfold SF64add, SF64mul.
  pose proof (SFmul_self_sign (Prim2SF x)) as Hsign.
  destruct (SFmul prec emax (Prim2SF x) (Prim2SF x)) as [[]|[]| |];
    try reflexivity; congruence.
Qed.

Lemma zero_add_square x : 0 + x * x = x * x.
Proof.
  apply Prim2SF_inj. rewrite add_spec, mul_spec.
  change (Prim2SF 0) with (S754_zero false). unfold SF64add, SF64mul.
  pose proof (SFmul_self_sign (Prim2SF x)) as Hsign.
  destruct (SFmul prec emax (Prim2SF x) (Prim2SF x)) as [[]|[]| |];
    try reflexivity; congruence.
Qed.

Lemma sum_prod_nan a b : has_nan a || has_nan b = true -> sum_prod a b = nan.
Proof.
  destruct a as [[a0 a1] a2], b as [[b0 b1] b2]. unfold has_nan, sum_prod.
  rewrite !orb_true_iff.
  intros [[[Hn|Hn]|Hn]|[[Hn|Hn]|Hn]]; apply is_nan_eq in Hn as ->;
    absorb_nan; reflexivity.
Qed.

Lemma sum_prod_x x y z :
  (y =? 0) = true -> (z =? 0) = true -> sum_prod (x, y, z) (x, y, z) = x * x.
Proof.
  intros Hy Hz. unfold sum_prod.
  rewrite (zero_square y Hy), (zero_square z Hz), !square_add_0. reflexivity.
Qed.

Lemma sum_prod_y x y z :
  (x =? 0) = true -> (z =? 0) = true -> sum_prod (x, y, z) (x, y, z) = y * y.
Proof.
  intros Hx Hz. unfold sum_prod.
  rewrite (zero_square x Hx), (zero_square z Hz), zero_add_square, square_add_0.
  reflexivity.
Qed.

Lemma sum_prod_z x y z :
  (x =? 0) = true -> (y =? 0) = true -> sum_prod (x, y, z) (x, y, z) = z * z.
Proof.
  intros Hx Hy. unfold sum_prod.
  rewrite (zero_square x Hx), (zero_square y Hy).
  replace (0 + 0) with 0 by reflexivity. apply zero_add_square.
Qed.

End SumProd.

(** * Instances to run the generator

    To run the generator on concrete inputs: a random number source that
    replays a recorded sequence of unit-interval doubles (the values
    [next_double] of the bit generator would return), series for the
    trigonometric functions, a correctly rounded [pow] and a dot product
    that rounds each operation. *)

Module Replay.

Local Open Scope float_scope.

(** The doubles still to be replayed; 0.5 for ever once they are used up. *)
Definition next_double (s : list float) : float * list float :=
  match s with
  | [] => (0.5, [])
  | u :: s' => (u, s')
  end.

(** [low + (high - low) * next_double], kept inside [[low, high]] as the
    documentation of [Generator.uniform] promises; an empty or unbounded
    range is refused, as NumPy refuses it. *)
Definition uniform (low high : float) : M (list float) float := fun s =>
  let range := high - low in
  if negb (is_finite range) then (Raise OverflowError, s)
  else if negb (low <=? high) then (Raise ValueError, s)
  else
    let '(u, s') := next_double s in
    let x := low + range * u in
    (Ok (if low <=? x then if x <=? high then x else high else low), s').

(** [choice(a, p=p)]: the first entry whose cumulative probability exceeds
    the draw; [ValueError] on mismatched lengths, on an empty population
    and on a NaN or negative probability. *)
Fixpoint pick (a : list string) (p : list float) (acc u : float) (d : string)
  : string :=
  match a, p with
  | x :: a', w :: p' => if u <? acc + w then x else pick a' p' (acc + w) u x
  | _, _ => d
  end.

Definition choice (a : list string) (p : list float)
  : M (list float) string := fun s =>
  match a with
  | [] => (Raise ValueError, s)
  | d :: _ =>
      if negb (length a =? length p)%nat
         || existsb (fun w => negb (0 <=? w)) p
      then (Raise ValueError, s)
      else let '(u, s') := next_double s in (Ok (pick a p 0 u d), s')
  end.

(** The doubles a 64-bit linear congruential generator started at [seed]
    gives: the top 53 bits of each state, scaled to [[0, 1)]. *)
Definition lcg (x : Z) : Z :=
  ((x * 6364136223846793005 + 1442695040888963407) mod 2 ^ 64)%Z.

Definition to_double (x : Z) : float :=
  Z.ldexp (of_uint63 (Uint63.of_Z (x / 2 ^ 11))) (-53).

Fixpoint doubles (n : nat) (x : Z) : list float :=
  match n with
  | O => []
  | S n' => let x' := lcg x in to_double x' :: doubles n' x'
  end.

Definition seeded (seed : Z) : result (list float) :=
  if (seed <? 0)%Z then Raise ValueError else Ok (doubles 64 seed).

#[export] Instance generator : Generator (list float) := {
  default_rng := seeded;
  rng_uniform := uniform;
  rng_choice := choice
}.

(** Cosine and sine by their Taylor series (good to a few units in the
    last place on [[-2 pi, 2 pi]]), arc cosine by bisection on the cosine
    over [[0, pi]]. *)
Fixpoint series (n : nat) (k : float) (x2 term acc : float) : float :=
  match n with
  | O => acc
  | S n' =>
      let term' := - term * x2 / ((k + 1) * (k + 2)) in
      series n' (k + 2) x2 term' (acc + term')
  end.

Definition cos_series (x : float) : float := series 30 0 (x * x) 1 1.
Definition sin_series (x : float) : float := series 30 1 (x * x) x x.

Fixpoint bisect (n : nat) (x lo hi : float) : float :=
  match n with
  | O => (lo + hi) / 2
  | S n' =>
      let mid := (lo + hi) / 2 in
      if x <? cos_series mid then bisect n' x mid hi else bisect n' x lo mid
  end.

Definition arccos_bisect (x : float) : float :=
  if (-1 <=? x) && (x <=? 1) then bisect 60 x 0 3.141592653589793 else nan.

(** A [pow] that is correctly rounded at the two exponents the code uses:
    the rounded product and the rounded square root. *)
Definition pow_rounded (x y : float) : float :=
  if y =? 2 then x * x else if y =? 0.5 then sqrt x else nan.

#[export] Instance libm : Libm := {
  cos := cos_series;
  sin := sin_series;
  arccos := arccos_bisect;
  pow := pow_rounded
}.

(** A BLAS that rounds every product and every sum, from left to right. *)
#[export] Instance blas : Blas := {
  ddot := sum_prod;
  ddot_nan := sum_prod_nan;
  ddot_x := sum_prod_x;
  ddot_y := sum_prod_y;
  ddot_z := sum_prod_z
}.

(** A small rate table, the same for the six flavors: energies in MeV. *)
Definition bins : list float := [0; 10; 20; 30; 40; 50].
Definition rates : list float := [0; 4; 8; 6; 2; 0].
Definition data : list table := replicate 6 (bins, rates, 20).

End Replay.

#[local] Existing Instance Replay.generator.
#[local] Existing Instance Replay.libm.
#[local] Existing Instance Replay.blas.

(** The generator [__init__] builds from the replay tables. *)
Definition replay_gen : eES_Gen := {|
  flavors := the_flavors;
  nuEnergyBins := Replay.bins;
  eventRates := list_to_map (zip the_flavors (replicate 6 Replay.rates));
  totalRates := list_to_map (zip the_flavors (replicate 6 20%float))
|}.

(** A run of [genEvent] on the replay tables. *)
Definition replay_seed : list float := Replay.doubles 64 42.

Definition replay_event : event :=
  Eval vm_compute in
    match (genEvent replay_gen (Some (3, 4, 0)%float) (Some "nue") 1 2 replay_seed).1 with
    | Ok ev => ev
    | Raise _ => Build_event "" 0 (0, 0, 0)%float 0 (0, 0, 0)%float
    end.

Definition replay_rest : list float :=
  Eval vm_compute in
    (genEvent replay_gen (Some (3, 4, 0)%float) (Some "nue") 1 2 replay_seed).2.

(** The identity as the sampled function, and a source whose first 1000
    candidates are rejected ([y = 0.8 >= 0.2 = func(x)]) and whose 1001st is
    accepted ([y = 0.1 < 0.9 = func(x)]). *)
Definition func_id (x : float) : result float := Ok x.

Definition rejected_1000_times : list float :=
  mjoin (replicate 1000 [0.2; 0.8]%float) ++ [0.9; 0.1]%float.

(** Draws that take the recoil energy to the last float below [maxKE(20)],
    where the rounded cosine is [1.0000000000000002]. *)
Definition limit_draws : list float :=
  [0.375; 0.5; 0.99999999999999989; 0.5]%float.

(** Draws that take the recoil energy to the threshold itself. *)
Definition negative_draws : list float := [0.375; 0.5; 0; 0.5]%float.

(** ** Files to load

    A directory to run the constructor on. *)

Module ReplayFiles.

Local Open Scope float_scope.

(** A file of the replay table: energies in GeV, and the line of the total
    rate, whose first field is not a number. *)
Definition rows : list (float * float) :=
  [(0, 0); (0.01, 4); (0.02, 8); (0.03, 6); (0.04, 2); (0.05, 0); (nan, 20)].

(** A directory that holds the six files of flux [gvkm] and detector
    [scint20kt], and nothing else. *)
Definition fs (name : string) : option ndarray :=
  if bool_decide (name ∈ (fun flavor => filename "data" "gvkm" flavor "scint20kt")
                          <$> the_flavors)
  then Some (Array2 rows) else None.

End ReplayFiles.

(** The same directory, with a [numu] file that has lost its first line. *)
Definition fs_short (name : string) : option ndarray :=
  if bool_decide (name = filename "data" "gvkm" "numu" "scint20kt")
  then Some (Array2 (drop 1 ReplayFiles.rows)) else ReplayFiles.fs name.

(** A function that is not defined at 0.5. *)
Definition func_partial (x : float) : result float :=
  if (x =? 0.5)%float then Raise ValueError else Ok x.

(** * Properties *)

(** Evaluate the left-hand side of an equation whose right-hand side is still
    to be determined. *)
Ltac run_lhs :=
  match goal with
  | |- ?lhs = _ =>
      let v := eval vm_compute in lhs in
      transitivity v; [vm_compute; reflexivity | reflexivity]
  end.

(** ** The monads *)

Section Monad.

Context {S : Type}.

Lemma bind_Ok {A B} (m : M S A) (f : A -> M S B) s b s2 :
  (m ≫= f) s = (Ok b, s2) <->
  exists a s1, m s = (Ok a, s1) /\ f a s1 = (Ok b, s2).
Proof.
  unfold mbind, M_bind. split.
  - destruct (m s) as [[a|e] s1]; [eauto | discriminate].
  - intros (a & s1 & -> & Hf). exact Hf.
Qed.

Lemma bind_Raise {A B} (m : M S A) (f : A -> M S B) s e s2 :
  (m ≫= f) s = (Raise e, s2) <->
  m s = (Raise e, s2) \/ exists a s1, m s = (Ok a, s1) /\ f a s1 = (Raise e, s2).
Proof.
  unfold mbind, M_bind. split.
  - destruct (m s) as [[a|e'] s1]; [eauto | intros [= -> ->]; auto].
  - intros [-> | (a & s1 & -> & Hf)]; [reflexivity | exact Hf].
Qed.

Lemma ret_Ok {A} (a b : A) (s s' : S) :
  (mret a : M S A) s = (Ok b, s') <-> a = b /\ s = s'.
Proof. unfold mret, M_ret. split; [intros [= -> ->] | intros [-> ->]]; auto. Qed.

Lemma lift_Ok {A} (r : result A) (a : A) (s s' : S) :
  lift r s = (Ok a, s') <-> r = Ok a /\ s = s'.
Proof. unfold lift. split; [intros [= -> ->] | intros [-> ->]]; auto. Qed.

Lemma assert_Ok (b : bool) a u (s s' : S) :
  assert_ b a s = (Ok u, s') <-> b = true /\ s = s'.
Proof.
  unfold assert_, lift. destruct b, u; split;
    [intros [= ->] | intros [_ ->] | intros [=] | intros [[=] _]]; auto.
Qed.

End Monad.

Lemma result_bind_Ok {A B} (r : result A) (f : A -> result B) b :
  r ≫= f = Ok b <-> exists a, r = Ok a /\ f a = Ok b.
Proof.
  unfold mbind, result_bind. split.
  - destruct r as [a|e]; [eauto | discriminate].
  - intros (a & -> & Hf). exact Hf.
Qed.

(** ** Rejection sampling *)

Section Sampling.

Context {bitgen : Type} `{Generator bitgen}.
Variables (func : float -> result float) (xmin xmax ymax : float).

Local Abbreviation once := (attempt func xmin xmax ymax).
Local Abbreviation loop := (rejection_loop func xmin xmax ymax).
Local Abbreviation sampling := (rejectionSampling func xmin xmax ymax).

(** The body of the [while True] loop, as the source writes it. *)
Lemma rejection_loop_body nIter s :
  loop nIter s =
  match once s with
  | (Raise e, s') => (Raise e, s')
  | (Ok (x, true), s') => (Ok x, s')
  | (Ok (x, false), s') =>
      if (1000 <? nIter + 1)%Z then (Raise RuntimeError, s')
      else loop (nIter + 1)%Z s'
  end.
Proof.
  rewrite rejection_loop_equation_1.
  unfold rejection_loop_unfold_clause_1.
  destruct (once s) as [[[x []]|e] s']; try reflexivity.
  unfold rejection_loop_unfold_clause_1_clause_3, inspect.
  destruct (1000 <? nIter + 1)%Z; reflexivity.
Qed.

Lemma reject_run_rejected n s s' :
  reject_run func xmin xmax ymax n s = Some s' <->
  rejected func xmin xmax ymax n s s'.
Proof.
  split.
  - revert s. induction n as [|n IH]; simpl; intros s Hrun.
    + injection Hrun as <-. constructor.
    + destruct (once s) as [[[x []]|e] s1] eqn:Ha; try discriminate.
      econstructor; eauto.
  - induction 1 as [|n s x s1 s2 Ha _ IH]; simpl; [reflexivity|].
    rewrite Ha. exact IH.
Qed.

Lemma rejection_loop_skip n s s1 nIter :
  rejected func xmin xmax ymax n s s1 -> (nIter + Z.of_nat n <= 1000)%Z ->
  loop nIter s = loop (nIter + Z.of_nat n)%Z s1.
Proof.
  intros Hrej. revert nIter.
  induction Hrej as [|n s x s1 s2 Ha _ IH]; intros nIter Hle.
  - f_equal. lia.
  - rewrite rejection_loop_body, Ha.
    destruct (Z.ltb_spec 1000 (nIter + 1)); [lia|].
    rewrite IH by lia. f_equal. lia.
Qed.

Lemma rejection_loop_accept nIter s x s' :
  once s = (Ok (x, true), s') -> loop nIter s = (Ok x, s').
Proof. intros Ha. rewrite rejection_loop_body, Ha. reflexivity. Qed.

Lemma rejection_loop_cap nIter s x s' :
  (1000 <= nIter)%Z -> once s = (Ok (x, false), s') ->
  loop nIter s = (Raise RuntimeError, s').
Proof.
  intros Hle Ha. rewrite rejection_loop_body, Ha.
  destruct (Z.ltb_spec 1000 (nIter + 1)); [reflexivity | lia].
Qed.

Lemma rejection_loop_outcome k : forall nIter s,
  remaining nIter = k -> (nIter <= 1000)%Z ->
  outcome func xmin xmax ymax nIter s (loop nIter s).1 (loop nIter s).2.
Proof.
  unfold remaining.
  induction k as [|k IH]; intros nIter s Hk Hle; [lia|].
  rewrite rejection_loop_body.
  destruct (once s) as [[[x []]|e] s1] eqn:Ha; simpl.
  - eapply (outcome_accept _ _ _ _ _ _ 0); [lia | constructor | exact Ha].
  - destruct (Z.ltb_spec 1000 (nIter + 1)) as [Hcap|Hcap]; simpl.
    + apply outcome_cap. replace (remaining nIter) with 1%nat
        by (unfold remaining; lia).
      econstructor; [exact Ha | constructor].
    + specialize (IH (nIter + 1)%Z s1 ltac:(lia) ltac:(lia)).
      inversion IH as [n s2 y s' Hn Hrej Hacc Hr Hs
                      |n s2 e s' Hn Hrej Hexn Hr Hs
                      |s' Hrej Hr Hs].
      * eapply (outcome_accept _ _ _ _ _ _ (S n)); [lia | | exact Hacc].
        econstructor; eauto.
      * eapply (outcome_raise _ _ _ _ _ _ (S n)); [lia | | exact Hexn].
        econstructor; eauto.
      * apply outcome_cap.
        replace (remaining nIter) with (S (remaining (nIter + 1)))
          by (unfold remaining; lia).
        econstructor; eauto.
  - eapply (outcome_raise _ _ _ _ _ _ 0); [lia | constructor | exact Ha].
Qed.

Lemma rejectionSampling_outcome s r s' :
  sampling s = (r, s') -> outcome func xmin xmax ymax 0 s r s'.
Proof.
  intros Hrun.
  pose proof (rejection_loop_outcome _ 0%Z s eq_refl ltac:(lia)) as Hout.
  unfold rejectionSampling in Hrun. rewrite Hrun in Hout. exact Hout.
Qed.

(** A value [rejectionSampling] returns is a candidate of an accepted
    attempt: drawn by [rng.uniform(xmin, xmax)], and with [y < func(x)]. *)
Lemma rejectionSampling_Ok s x s' :
  sampling s = (Ok x, s') ->
  exists s0 s1 y s2 fx,
    rng_uniform xmin xmax s0 = (Ok x, s1) /\
    rng_uniform 0 ymax s1 = (Ok y, s2) /\
    func x = Ok fx /\ (y <? fx)%float = true /\ s' = s2.
Proof.
  intros Hrun%rejectionSampling_outcome.
  inversion Hrun as [n s1 y s2 _ _ Hacc| |]; subst.
  unfold attempt in Hacc.
  apply bind_Ok in Hacc as (x' & t1 & Hx & Hacc).
  apply bind_Ok in Hacc as (y' & t2 & Hy & Hacc).
  apply bind_Ok in Hacc as (fx & t3 & [Hf <-]%lift_Ok & Hacc).
  apply ret_Ok in Hacc as [[= -> Hlt] <-].
  exists s1, t1, y', t2, fx. auto.
Qed.

End Sampling.

Section SamplingCap.

Context {bitgen : Type} `{Generator bitgen}.
Variables (func : float -> result float) (xmin xmax ymax : float).

Lemma rejected_last n s s' :
  rejected func xmin xmax ymax (S n) s s' ->
  exists s1 x, rejected func xmin xmax ymax n s s1 /\
               attempt func xmin xmax ymax s1 = (Ok (x, false), s').
Proof.
  revert s. induction n as [|n IH]; intros s Hrej.
  - inversion Hrej as [|? ? x s1 ? Ha Hrest]; subst.
    inversion Hrest; subst. exists s, x. split; [constructor | exact Ha].
  - inversion Hrej as [|? ? x s1 ? Ha Hrest]; subst.
    destruct (IH _ Hrest) as (s2 & y & Hrej' & Hlast).
    exists s2, y. split; [econstructor; eauto | exact Hlast].
Qed.

Lemma rejectionSampling_rejected_1001 s s' :
  rejected func xmin xmax ymax 1001 s s' ->
  rejectionSampling func xmin xmax ymax s = (Raise RuntimeError, s').
Proof.
  intros (s1 & x & Hrej & Hlast)%rejected_last.
  unfold rejectionSampling.
  rewrite (rejection_loop_skip _ _ _ _ _ _ _ 0%Z Hrej) by lia.
  apply (rejection_loop_cap _ _ _ _ _ _ x); [lia | exact Hlast].
Qed.

Lemma rejectionSampling_first_accepted n s s1 x s' :
  n <= 1000 -> rejected func xmin xmax ymax n s s1 ->
  attempt func xmin xmax ymax s1 = (Ok (x, true), s') ->
  rejectionSampling func xmin xmax ymax s = (Ok x, s').
Proof.
  intros Hn Hrej Hacc. unfold rejectionSampling.
  rewrite (rejection_loop_skip _ _ _ _ _ _ _ 0%Z Hrej) by lia.
  apply rejection_loop_accept. exact Hacc.
Qed.

End SamplingCap.

(** The replay generator raises [OverflowError] and [ValueError] only. *)
Lemma replay_uniform_Raise low high s e s' :
  Replay.uniform low high s = (Raise e, s') -> e = OverflowError \/ e = ValueError.
Proof.
  unfold Replay.uniform.
  destruct (negb (is_finite (high - low))); [intros [= <- _]; auto|].
  destruct (negb (low <=? high)%float); [intros [= <- _]; auto|].
  destruct (Replay.next_double s). discriminate.
Qed.

Lemma replay_attempt_Raise func xmin xmax ymax (s : list float) e s' :
  (forall x, func x <> Raise RuntimeError) ->
  attempt func xmin xmax ymax s = (Raise e, s') -> e <> RuntimeError.
Proof.
  intros Hfunc Ha. unfold attempt in Ha.
  apply bind_Raise in Ha as [Hu | (x & s1 & _ & Ha)].
  { apply replay_uniform_Raise in Hu as [-> | ->]; discriminate. }
  apply bind_Raise in Ha as [Hu | (y & s2 & _ & Ha)].
  { apply replay_uniform_Raise in Hu as [-> | ->]; discriminate. }
  apply bind_Raise in Ha as [Hf | (fx & s3 & _ & Ha)].
  - unfold lift in Hf. injection Hf as Hf _. intros ->. exact (Hfunc x Hf).
  - discriminate.
Qed.

(** C2, as amended: [rejectionSampling] raises its [RuntimeError], the
    convergence error, exactly when the first 1001 candidates have all been
    rejected (the counter is tested with [nIter > 1000] after it has been
    incremented), and returns [x] exactly when [x] is the first accepted
    candidate and at most 1000 candidates were rejected before it.  The
    draws and [func] are assumed not to raise [RuntimeError] themselves. *)
Theorem rejectionSampling_cap {bitgen : Type} `{Generator bitgen}
    (func : float -> result float) (xmin xmax ymax : float) (s : bitgen) :
  (forall s0 e s1, attempt func xmin xmax ymax s0 = (Raise e, s1) -> e <> RuntimeError) ->
  (forall s', rejectionSampling func xmin xmax ymax s = (Raise RuntimeError, s') <->
              rejected func xmin xmax ymax 1001 s s') /\
  (forall x s', rejectionSampling func xmin xmax ymax s = (Ok x, s') <->
                exists n s1, n <= 1000 /\ rejected func xmin xmax ymax n s s1 /\
                             attempt func xmin xmax ymax s1 = (Ok (x, true), s')).
Proof.
  intros Hexn. split.
  - intros s'. split.
    + intros Hrun%rejectionSampling_outcome.
      inversion Hrun as [|n s1 e s2 _ _ Ha|s2 Hrej]; subst.
      * exfalso. exact (Hexn _ _ _ Ha eq_refl).
      * exact Hrej.
    + apply rejectionSampling_rejected_1001.
  - intros x s'. split.
    + intros Hrun%rejectionSampling_outcome.
      inversion Hrun as [n s1 y s2 Hn Hrej Ha| |]; subst.
      exists n, s1. split; [lia | auto].
    + intros (n & s1 & Hn & Hrej & Ha).
      eapply rejectionSampling_first_accepted; eauto.
Qed.

Lemma rejectionSampling_cap_witness :
  rejectionSampling func_id 0 1 1 [0.5; 0.25]%float = (Ok 0.5%float, []).
Proof.
  apply (rejectionSampling_cap func_id 0 1 1 [0.5; 0.25]%float).
  - intros s0 e s1. apply replay_attempt_Raise. discriminate.
  - exists 0, [0.5; 0.25]%float.
    split; [lia | split; [constructor | reflexivity]].
Defined.

(** C2, as stated, fails: after 1000 rejected candidates the loop draws a
    1001st one, and returns it when it is accepted. *)
Lemma rejectionSampling_1000_rejected_no_error :
  rejected func_id 0 1 1 1000 rejected_1000_times [0.9; 0.1]%float /\
  rejectionSampling func_id 0 1 1 rejected_1000_times = (Ok 0.9%float, []).
Proof.
  split.
  - apply reject_run_rejected. vm_compute. reflexivity.
  - vm_compute. reflexivity.
Qed.

(** ** Interpolation of a rate table *)

Section Interp.

Import F64.
Local Open Scope float_scope.

Lemma increasing_cons x y l :
  increasing (x :: y :: l) = true <-> (x <? y) = true /\ increasing (y :: l) = true.
Proof. simpl. rewrite andb_true_iff. reflexivity. Qed.

Lemma increasing_tail x l : increasing (x :: l) = true -> increasing l = true.
Proof. destruct l as [|y l]; [reflexivity|]. intros [_ ?]%increasing_cons. auto. Qed.

Lemma increasing_head_lt l : forall x j b,
  increasing (x :: l) = true -> l !! j = Some b -> (x <? b) = true.
Proof.
  induction l as [|y l IH]; intros x j b Hinc Hj; [discriminate|].
  apply increasing_cons in Hinc as [Hxy Hinc].
  destruct j as [|j]; simpl in Hj.
  - injection Hj as <-. exact Hxy.
  - eapply ltb_trans; [exact Hxy | eapply IH; eauto].
Qed.

Lemma increasing_lookup_lt l : forall i j a b,
  increasing l = true -> i < j -> l !! i = Some a -> l !! j = Some b ->
  (a <? b) = true.
Proof.
  induction l as [|x l IH]; intros i j a b Hinc Hij Hi Hj; [discriminate|].
  destruct j as [|j]; [lia|]. simpl in Hj.
  destruct i as [|i]; simpl in Hi.
  - injection Hi as <-. eapply increasing_head_lt; eauto.
  - eapply (IH i j); eauto using increasing_tail. lia.
Qed.

Lemma increasing_lookup_not_lt l i j a b :
  increasing l = true -> i <= j -> l !! i = Some a -> l !! j = Some b ->
  (b <? a) = false.
Proof.
  intros Hinc Hij Hi Hj.
  destruct (decide (i = j)) as [->|Hne].
  - rewrite Hi in Hj. injection Hj as <-. apply ltb_irrefl.
  - apply ltb_asym. apply (increasing_lookup_lt l i j); auto. lia.
Qed.

Lemma increasing_number l i x :
  increasing l = true -> 2 <= length l -> l !! i = Some x -> number x.
Proof.
  intros Hinc Hlen Hi.
  destruct i as [|i].
  - destruct (lookup_lt_is_Some_2 l 1 ltac:(lia)) as [y Hy].
    eapply ltb_number_l, (increasing_lookup_lt l 0 1); eauto.
  - destruct (lookup_lt_is_Some_2 l 0 ltac:(lia)) as [y Hy].
    eapply ltb_number_r, (increasing_lookup_lt l 0 (S i)); eauto. lia.
Qed.

Lemma last_default_lookup {A} (l : list A) d :
  l <> [] -> l !! pred (length l) = Some (List.last l d).
Proof.
  induction l as [|x l IH]; [congruence|]. intros _.
  destruct l as [|y l]; [reflexivity|].
  exact (IH ltac:(discriminate)).
Qed.

(** The scan stops at the interval an edge starts, and returns its rate. *)
Lemma interp_scan_edge rest : forall x0 f0 i xi fi,
  increasing (x0 :: rest.*1) = true ->
  ((x0, f0) :: rest) !! i = Some (xi, fi) ->
  interp_scan xi x0 f0 rest = fi.
Proof.
  induction rest as [|[x1 f1] rest IH]; intros x0 f0 i xi fi Hinc Hi.
  - destruct i; [injection Hi as <- <-; reflexivity | discriminate].
  - change (x0 :: ((x1, f1) :: rest).*1) with (x0 :: x1 :: rest.*1) in Hinc.
    simpl. destruct i as [|i]; simpl in Hi.
    + injection Hi as <- <-.
      apply increasing_cons in Hinc as [Hlt _].
      rewrite Hlt. rewrite (ltb_number_l _ _ Hlt). reflexivity.
    + assert ((xi <? x1) = false) as ->.
      { apply (increasing_lookup_not_lt (x1 :: rest.*1) 0 i);
          eauto using increasing_tail; [lia|].
        change (x1 :: rest.*1) with (((x1, f1) :: rest).*1).
        rewrite list_lookup_fmap, Hi. reflexivity. }
      eapply IH; eauto using increasing_tail.
Qed.

(** Inside an interval the scan returns the linear interpolation. *)
Lemma interp_scan_inside rest : forall x0 f0 i a fa b fb x,
  increasing (x0 :: rest.*1) = true ->
  ((x0, f0) :: rest) !! i = Some (a, fa) ->
  ((x0, f0) :: rest) !! S i = Some (b, fb) ->
  (a <? x) = true -> (x <? b) = true ->
  interp_scan x x0 f0 rest = lerp x a fa b fb.
Proof.
  induction rest as [|[x1 f1] rest IH]; intros x0 f0 i a fa b fb x Hinc Hi Hsi Hax Hxb.
  - discriminate.
  - change (x0 :: ((x1, f1) :: rest).*1) with (x0 :: x1 :: rest.*1) in Hinc.
    simpl. destruct i as [|i]; simpl in Hi, Hsi.
    + injection Hi as <- <-. injection Hsi as <- <-.
      rewrite Hxb, (ltb_eqb _ _ Hax). reflexivity.
    + assert ((x <? x1) = false) as ->.
      { apply ltb_asym. destruct i as [|i]; simpl in Hi.
        - injection Hi as <- <-. exact Hax.
        - refine (ltb_trans _ a _ _ Hax).
          apply (increasing_lookup_lt (x1 :: rest.*1) 0 (S i));
            eauto using increasing_tail; [lia|].
          simpl. rewrite list_lookup_fmap, Hi. reflexivity. }
      eapply IH; eauto using increasing_tail.
Qed.

Lemma increasing_lookup_lt_below l i j a b x :
  increasing l = true -> i <= j -> l !! i = Some a -> l !! j = Some b ->
  (x <? a) = true -> (x <? b) = true.
Proof.
  intros Hinc Hij Hi Hj Hxa.
  destruct (decide (i = j)) as [->|Hne].
  - rewrite Hi in Hj. injection Hj as <-. exact Hxa.
  - refine (ltb_trans _ a _ Hxa _).
    apply (increasing_lookup_lt l i j); auto. lia.
Qed.

Lemma increasing_lookup_lt_above l i j a b x :
  increasing l = true -> i <= j -> l !! i = Some a -> l !! j = Some b ->
  (b <? x) = true -> (a <? x) = true.
Proof.
  intros Hinc Hij Hi Hj Hbx.
  destruct (decide (i = j)) as [->|Hne].
  - rewrite Hi in Hj. injection Hj as <-. exact Hbx.
  - refine (ltb_trans _ b _ _ Hbx).
    apply (increasing_lookup_lt l i j); auto. lia.
Qed.

Lemma zip_lookup_pair (xp fp : list float) i e r :
  xp !! i = Some e -> fp !! i = Some r -> zip xp fp !! i = Some (e, r).
Proof. intros Hx Hf. rewrite lookup_zip_with, Hx, Hf. reflexivity. Qed.

(** The four cases of [np.interp] on an increasing table: at an edge, inside
    an interval, below the first edge and above the last. *)
Lemma interp_edge xp fp i e r :
  length fp = length xp -> increasing xp = true ->
  xp !! i = Some e -> fp !! i = Some r -> interp e xp fp = Ok r.
Proof.
  intros Hlen Hinc Hx Hf. unfold interp.
  destruct xp as [|x0 xp], fp as [|f0 fp]; try discriminate.
  cbn [zip zip_with]. rewrite Hlen, Nat.eqb_refl. cbn [negb].
  destruct xp as [|x1 xp], fp as [|f1 fp]; try discriminate; cbn [zip_with].
  - destruct i; [|discriminate]. injection Hx as <-. injection Hf as <-.
    rewrite ltb_irrefl. reflexivity.
  - set (l := x0 :: x1 :: xp) in *.
    assert (2 <= length l)%nat as Hl2 by (simpl; lia).
    pose proof (increasing_number _ _ _ Hinc Hl2 Hx) as Hnum.
    apply number_is_nan in Hnum as ->.
    pose proof (last_default_lookup l x0 ltac:(discriminate)) as Hlast.
    assert (i <= pred (length l))%nat as Hi by (apply lookup_lt_Some in Hx; lia).
    rewrite (increasing_lookup_not_lt l i _ _ _ Hinc Hi Hx Hlast).
    assert (0 <= i)%nat as H0 by lia.
    rewrite (increasing_lookup_not_lt l 0 i x0 e Hinc H0 eq_refl Hx).
    f_equal. apply (interp_scan_edge _ _ _ i).
    + change ((x1, f1) :: zip_with pair xp fp) with (zip (x1 :: xp) (f1 :: fp)).
      rewrite fst_zip by (simpl in *; lia). exact Hinc.
    + apply (zip_lookup_pair l (f0 :: f1 :: fp)); assumption.
Qed.

Lemma interp_inside xp fp i e0 r0 e1 r1 e :
  length fp = length xp -> increasing xp = true ->
  xp !! i = Some e0 -> fp !! i = Some r0 ->
  xp !! S i = Some e1 -> fp !! S i = Some r1 ->
  (e0 <? e) = true -> (e <? e1) = true ->
  interp e xp fp = Ok (lerp e e0 r0 e1 r1).
Proof.
  intros Hlen Hinc Hx0 Hf0 Hx1 Hf1 Hlo Hhi. unfold interp.
  destruct xp as [|x0 xp], fp as [|f0 fp]; try discriminate.
  cbn [zip zip_with]. rewrite Hlen, Nat.eqb_refl. cbn [negb].
  destruct xp as [|x1 xp], fp as [|f1 fp]; try discriminate; cbn [zip_with].
  set (l := x0 :: x1 :: xp) in *.
  rewrite (proj1 (number_is_nan e) (ltb_number_l _ _ Hhi)).
  pose proof (last_default_lookup l x0 ltac:(discriminate)) as Hlast.
  assert (S i <= pred (length l))%nat as Hi by (apply lookup_lt_Some in Hx1; lia).
  rewrite (ltb_asym _ _ (increasing_lookup_lt_below l _ _ _ _ e Hinc Hi Hx1 Hlast Hhi)).
  assert (0 <= i)%nat as H0 by lia.
  rewrite (ltb_asym _ _ (increasing_lookup_lt_above l 0 i x0 e0 e Hinc H0 eq_refl Hx0 Hlo)).
  f_equal. apply (interp_scan_inside _ _ _ i).
  - change ((x1, f1) :: zip_with pair xp fp) with (zip (x1 :: xp) (f1 :: fp)).
    rewrite fst_zip by (simpl in *; lia). exact Hinc.
  - apply (zip_lookup_pair l (f0 :: f1 :: fp)); assumption.
  - apply (zip_lookup_pair l (f0 :: f1 :: fp)); assumption.
  - exact Hlo.
  - exact Hhi.
Qed.

Lemma interp_below xp fp e0 r0 e :
  length fp = length xp -> increasing xp = true ->
  head xp = Some e0 -> head fp = Some r0 -> (e <? e0) = true ->
  interp e xp fp = Ok r0.
Proof.
  intros Hlen Hinc Hx Hf Hlt. unfold interp.
  destruct xp as [|x0 xp], fp as [|f0 fp]; try discriminate.
  injection Hx as ->. injection Hf as ->.
  cbn [zip zip_with]. rewrite Hlen, Nat.eqb_refl. cbn [negb].
  destruct xp as [|x1 xp], fp as [|f1 fp]; try discriminate; cbn [zip_with].
  - rewrite Hlt. reflexivity.
  - set (l := e0 :: x1 :: xp) in *.
    rewrite (proj1 (number_is_nan e) (ltb_number_l _ _ Hlt)).
    pose proof (last_default_lookup l e0 ltac:(discriminate)) as Hlast.
    assert (0 <= pred (length l))%nat as Hi by lia.
    rewrite (ltb_asym _ _ (increasing_lookup_lt_below l _ _ _ _ e Hinc Hi eq_refl Hlast Hlt)).
    rewrite Hlt. reflexivity.
Qed.

Lemma interp_above xp fp eN rN e :
  length fp = length xp -> increasing xp = true ->
  last xp = Some eN -> last fp = Some rN -> (eN <? e) = true ->
  interp e xp fp = Ok rN.
Proof.
  intros Hlen Hinc Hx Hf Hlt. unfold interp.
  destruct xp as [|x0 xp], fp as [|f0 fp]; try discriminate.
  cbn [zip zip_with]. rewrite Hlen, Nat.eqb_refl. cbn [negb].
  pose proof (last_default_lookup (x0 :: xp) x0 ltac:(discriminate)) as Hx'.
  pose proof (last_default_lookup (f0 :: fp) f0 ltac:(discriminate)) as Hf'.
  rewrite <- last_lookup in Hx', Hf'.
  assert (List.last (x0 :: xp) x0 = eN) as -> by congruence.
  assert (List.last (f0 :: fp) f0 = rN) as -> by congruence.
  destruct xp as [|x1 xp], fp as [|f1 fp]; try discriminate; cbn [zip_with].
  - injection Hx as ->. injection Hf as ->.
    rewrite (ltb_asym _ _ Hlt), Hlt. reflexivity.
  - rewrite (proj1 (number_is_nan e) (ltb_number_r _ _ Hlt)), Hlt.
    reflexivity.
Qed.

End Interp.

Lemma replay_init fresh :
  __init__ Replay.data 42 fresh = Ok (replay_gen, Replay.doubles 64 42).
Proof. vm_compute. reflexivity. Qed.

(** C5: for a flavor of the generator whose rate table is as long as the
    energy bins, these increasing strictly, [getEventRate] is the piecewise
    linear interpolation of the table: the tabulated rate at every bin edge;
    inside a bin, the line through the two neighbouring points,
    [(r1 - r0) / (e1 - e0) * (e - e0) + r0], and where this is NaN the same
    line from the other end of the bin, [(r1 - r0) / (e1 - e0) * (e - e1) + r1]
    (or [r0], when this is NaN too and the two rates are equal); the first
    rate below the first bin and the last rate above the last one.  It is a
    function of the tables and of the energy alone: the random number
    source is no argument of it. *)
Theorem getEventRate_interpolates (g : eES_Gen) (flavor : string)
    (rates : list float) :
  flavor ∈ flavors g ->
  eventRates g !! flavor = Some rates ->
  length rates = length (nuEnergyBins g) ->
  increasing (nuEnergyBins g) = true ->
  (forall i e r,
     nuEnergyBins g !! i = Some e -> rates !! i = Some r ->
     getEventRate g flavor e = Ok r) /\
  (forall i e0 r0 e1 r1 e,
     nuEnergyBins g !! i = Some e0 -> rates !! i = Some r0 ->
     nuEnergyBins g !! S i = Some e1 -> rates !! S i = Some r1 ->
     (e0 <? e)%float = true -> (e <? e1)%float = true ->
     is_nan ((r1 - r0) / (e1 - e0) * (e - e0) + r0)%float = false ->
     getEventRate g flavor e = Ok ((r1 - r0) / (e1 - e0) * (e - e0) + r0)%float) /\
  (forall i e0 r0 e1 r1 e,
     nuEnergyBins g !! i = Some e0 -> rates !! i = Some r0 ->
     nuEnergyBins g !! S i = Some e1 -> rates !! S i = Some r1 ->
     (e0 <? e)%float = true -> (e <? e1)%float = true ->
     is_nan ((r1 - r0) / (e1 - e0) * (e - e0) + r0)%float = true ->
     getEventRate g flavor e
     = Ok (if is_nan ((r1 - r0) / (e1 - e0) * (e - e1) + r1)%float
              && (r0 =? r1)%float
           then r0 else ((r1 - r0) / (e1 - e0) * (e - e1) + r1)%float)) /\
  (forall e0 r0 e,
     head (nuEnergyBins g) = Some e0 -> head rates = Some r0 ->
     (e <? e0)%float = true -> getEventRate g flavor e = Ok r0) /\
  (forall eN rN e,
     last (nuEnergyBins g) = Some eN -> last rates = Some rN ->
     (eN <? e)%float = true -> getEventRate g flavor e = Ok rN).
Proof.
  intros Hin Hrates Hlen Hinc.
  assert (forall e, getEventRate g flavor e = interp e (nuEnergyBins g) rates)
    as Hget.
  { intros e. unfold getEventRate, is_flavor, getitem.
    rewrite bool_decide_eq_true_2 by exact Hin. rewrite Hrates. reflexivity. }
  split; [|split; [|split; [|split]]].
  - intros i e r Hx Hf. rewrite Hget. eapply interp_edge; eauto.
  - intros i e0 r0 e1 r1 e Hx0 Hf0 Hx1 Hf1 Hlo Hhi Hnum.
    rewrite Hget, (interp_inside _ _ i e0 r0 e1 r1 e) by assumption.
    unfold lerp. cbv zeta. rewrite Hnum. reflexivity.
  - intros i e0 r0 e1 r1 e Hx0 Hf0 Hx1 Hf1 Hlo Hhi Hnan.
    rewrite Hget, (interp_inside _ _ i e0 r0 e1 r1 e) by assumption.
    unfold lerp. cbv zeta. rewrite Hnan. reflexivity.
  - intros e0 r0 e Hx Hf Hlt. rewrite Hget. eapply interp_below; eauto.
  - intros eN rN e Hx Hf Hlt. rewrite Hget. eapply interp_above; eauto.
Qed.

Lemma getEventRate_interpolates_witness :
  getEventRate replay_gen "nue" 20 = Ok 8%float /\
  getEventRate replay_gen "nue" 15 = Ok ((8 - 4) / (20 - 10) * (15 - 10) + 4)%float /\
  ((8 - 4) / (20 - 10) * (15 - 10) + 4 = 6)%float /\
  getEventRate replay_gen "nue" (-1) = Ok 0%float /\
  getEventRate replay_gen "nue" 60 = Ok 0%float.
Proof.
  destruct (getEventRate_interpolates replay_gen "nue" Replay.rates)
    as (Hedge & Hinside & _ & Hbelow & Habove).
  - refine (proj1 (bool_decide_eq_true _) _). vm_compute. reflexivity.
  - vm_compute. reflexivity.
  - reflexivity.
  - reflexivity.
  - split; [exact (Hedge 2%nat 20 8 eq_refl eq_refl)%float|].
    split; [exact (Hinside 1%nat 10 4 20 8 15 eq_refl eq_refl eq_refl eq_refl
                     eq_refl eq_refl eq_refl)%float|].
    split; [reflexivity|].
    split; [exact (Hbelow 0 0 (-1) eq_refl eq_refl eq_refl)%float|].
    exact (Habove 50 0 60 eq_refl eq_refl eq_refl)%float.
Defined.

(** ** The steps of [selectNu] and [genEvent] *)

Section Steps.

Context {bitgen : Type} `{Generator bitgen} `{Libm} `{Blas}.
Local Open Scope float_scope.

Lemma getitem_Ok {V} (d : gmap string V) k v :
  getitem d k = Ok v <-> d !! k = Some v.
Proof. unfold getitem. destruct (d !! k); split; congruence. Qed.

Lemma selectNu_Ok g flavor nuThreshold s genFlavor nuEnergy s1 :
  selectNu g flavor nuThreshold s = (Ok (genFlavor, nuEnergy), s1) <->
  selected g flavor nuThreshold s genFlavor nuEnergy s1.
Proof.
  unfold selectNu. split.
  - intros Hrun.
    apply bind_Ok in Hrun as (f & s0 & Hf & Hrun).
    apply bind_Ok in Hrun as (u & t1 & [Hin <-]%assert_Ok & Hrun).
    apply bind_Ok in Hrun as (rates & t2 & [Hrates <-]%lift_Ok & Hrun).
    apply bind_Ok in Hrun as (maxEventRate & t3 & [Hmax <-]%lift_Ok & Hrun).
    apply bind_Ok in Hrun as (minBin & t4 & [Hmin <-]%lift_Ok & Hrun).
    apply bind_Ok in Hrun as (maxBin & t5 & [Hmaxb <-]%lift_Ok & Hrun).
    apply bind_Ok in Hrun as (E & t6 & Hsample & Hrun).
    apply ret_Ok in Hrun as [[= <- <-] <-].
    apply bool_decide_eq_true in Hin. apply getitem_Ok in Hrates.
    econstructor; eauto.
    destruct flavor as [f0|].
    + apply ret_Ok in Hf as [-> ->]. auto.
    + apply bind_Ok in Hf as (ws & t0 & [Hws <-]%lift_Ok & Hf). eauto.
  - intros [f s0 rates maxEventRate minBin maxBin E s2
              Hf Hin Hrates Hmax Hmin Hmaxb Hsample].
    apply bind_Ok. exists f, s0. split.
    { destruct flavor as [f0|].
      - destruct Hf as [-> ->]. reflexivity.
      - destruct Hf as (ws & Hws & Hf). apply bind_Ok.
        exists ws, s. split; [rewrite Hws; reflexivity | exact Hf]. }
    apply bind_Ok. exists tt, s0. split.
    { apply assert_Ok. split; [|reflexivity]. apply bool_decide_eq_true. exact Hin. }
    apply getitem_Ok in Hrates.
    apply bind_Ok. exists rates, s0. split; [rewrite Hrates; reflexivity|].
    apply bind_Ok. exists maxEventRate, s0. split; [rewrite Hmax; reflexivity|].
    apply bind_Ok. exists minBin, s0. split; [rewrite Hmin; reflexivity|].
    apply bind_Ok. exists maxBin, s0. split; [rewrite Hmaxb; reflexivity|].
    apply bind_Ok. exists E, s2. split; [exact Hsample | reflexivity].
Qed.

Lemma genEvent_Ok g sn flavor eThreshold nuThreshold s ev s' :
  genEvent g sn flavor eThreshold nuThreshold s = (Ok ev, s') <->
  generated g sn flavor eThreshold nuThreshold s ev s'.
Proof.
  unfold genEvent. split.
  - intros Hrun.
    apply bind_Ok in Hrun as ([f E] & s1 & Hsel & Hrun).
    apply bind_Ok in Hrun as (v & s2 & Hdir & Hrun).
    destruct (couplings f) as [ga gv] eqn:Hc.
    apply bind_Ok in Hrun as (maxD & t1 & [HmaxD <-]%lift_Ok & Hrun).
    apply bind_Ok in Hrun as (mKE & t2 & [HmKE <-]%lift_Ok & Hrun).
    apply bind_Ok in Hrun as (T & s3 & Hsample & Hrun).
    apply bind_Ok in Hrun as (c & t3 & [Hcos <-]%lift_Ok & Hrun).
    apply bind_Ok in Hrun as (u & t4 & [Hrange <-]%assert_Ok & Hrun).
    apply bind_Ok in Hrun as (ePhi & s4 & Hphi & Hrun).
    apply bind_Ok in Hrun as (e0 & t5 & [He0 <-]%lift_Ok & Hrun).
    apply bind_Ok in Hrun as (u' & t6 & [Hclose <-]%assert_Ok & Hrun).
    apply ret_Ok in Hrun as [<- <-].
    econstructor; eauto.
  - intros [f E s1 v s2 ga gv maxD mKE T s3 c ePhi s4 e0
              Hsel Hdir Hc HmaxD HmKE Hsample Hcos Hrange Hphi He0 Hclose].
    apply bind_Ok. exists (f, E), s1. split; [exact Hsel|].
    apply bind_Ok. exists v, s2. split; [exact Hdir|].
    rewrite Hc.
    apply bind_Ok. exists maxD, s2. split; [rewrite HmaxD; reflexivity|].
    apply bind_Ok. exists mKE, s2. split; [rewrite HmKE; reflexivity|].
    apply bind_Ok. exists T, s3. split; [exact Hsample|].
    apply bind_Ok. exists c, s3. split; [rewrite Hcos; reflexivity|].
    apply bind_Ok. exists tt, s3. split; [apply assert_Ok; auto|].
    apply bind_Ok. exists ePhi, s4. split; [exact Hphi|].
    apply bind_Ok. exists e0, s4. split; [rewrite He0; reflexivity|].
    apply bind_Ok. exists tt, s4. split; [apply assert_Ok; auto|].
    reflexivity.
Qed.

End Steps.

Lemma replay_genEvent :
  genEvent replay_gen (Some (3, 4, 0)%float) (Some "nue") 1 2 replay_seed
  = (Ok replay_event, replay_rest).
Proof. vm_compute. reflexivity. Qed.

(** ** The flavor argument *)

Section Flavor.

Context {bitgen : Type} `{Generator bitgen} `{Libm} `{Blas}.

Lemma selectNu_unknown_flavor g f nuThreshold (s : bitgen) :
  f ∉ flavors g ->
  selectNu g (Some f) nuThreshold s = (Raise (AssertionError FlavorNotRecognized), s).
Proof.
  intros Hnot. unfold selectNu.
  unfold mbind at 1, M_bind at 1, mret, M_ret.
  unfold mbind at 1, M_bind at 1, is_flavor.
  rewrite bool_decide_eq_false_2 by exact Hnot. reflexivity.
Qed.

Lemma genEvent_unknown_flavor g sn f eThreshold nuThreshold (s : bitgen) :
  f ∉ flavors g ->
  genEvent g sn (Some f) eThreshold nuThreshold s
  = (Raise (AssertionError FlavorNotRecognized), s).
Proof.
  intros Hnot. unfold genEvent, mbind at 1, M_bind.
  rewrite selectNu_unknown_flavor by exact Hnot. reflexivity.
Qed.

Lemma selectNu_given_flavor g f nuThreshold (s : bitgen) f' E s' :
  selectNu g (Some f) nuThreshold s = (Ok (f', E), s') -> f' = f.
Proof.
  intros Hsel%selectNu_Ok. inversion Hsel as [? ? ? ? ? ? ? ? [-> _]]. reflexivity.
Qed.

End Flavor.

(** C6: when a flavor is supplied and is one of the six flavors, the
    membership test passes and every result of [selectNu] and every event of
    [genEvent] carries that flavor; when it is anything else, both calls fail
    on [assert flavor in self.flavors] (the [AssertionError] that stands for
    InvalidFlavorError), before any random draw, and no event is produced. *)
Theorem flavor_argument_checked {bitgen : Type} `{Generator bitgen} `{Libm} `{Blas}
    (g : eES_Gen) (sn : option vec3) (f : string)
    (eThreshold nuThreshold : float) (s : bitgen) :
  flavors g = the_flavors ->
  (f ∈ the_flavors ->
     is_flavor g f = true /\
     (forall f' E s', selectNu g (Some f) nuThreshold s = (Ok (f', E), s') -> f' = f) /\
     (forall ev s', genEvent g sn (Some f) eThreshold nuThreshold s = (Ok ev, s') ->
                    flavor ev = f)) /\
  (f ∉ the_flavors ->
     selectNu g (Some f) nuThreshold s
     = (Raise (AssertionError FlavorNotRecognized), s) /\
     genEvent g sn (Some f) eThreshold nuThreshold s
     = (Raise (AssertionError FlavorNotRecognized), s)).
Proof.
  intros Hg. split.
  - intros Hin. split; [|split].
    + unfold is_flavor. rewrite Hg. apply bool_decide_eq_true. exact Hin.
    + intros f' E s'. apply selectNu_given_flavor.
    + intros ev s' Hrun%genEvent_Ok.
      inversion Hrun as [f' ? ? ? ? ? ? ? ? ? ? ? ? ? ? Hsel]. simpl.
      eapply selectNu_given_flavor. exact Hsel.
  - intros Hnot. rewrite <- Hg in Hnot.
    split; [apply selectNu_unknown_flavor | apply genEvent_unknown_flavor];
      exact Hnot.
Qed.

Lemma flavor_argument_checked_witness :
  flavor replay_event = "nue" /\
  genEvent replay_gen (Some (3, 4, 0)%float) (Some "nuet") 1 2 replay_seed
  = (Raise (AssertionError FlavorNotRecognized), replay_seed).
Proof.
  split.
  - destruct (flavor_argument_checked replay_gen (Some (3, 4, 0)%float) "nue"
                1 2 replay_seed eq_refl) as [Hvalid _].
    refine (proj2 (proj2 (Hvalid _)) _ _ replay_genEvent).
    refine (proj1 (bool_decide_eq_true _) _). vm_compute. reflexivity.
  - destruct (flavor_argument_checked replay_gen (Some (3, 4, 0)%float) "nuet"
                1 2 replay_seed eq_refl) as [_ Hbad].
    refine (proj2 (Hbad _)).
    refine (proj1 (bool_decide_eq_false _) _). vm_compute. reflexivity.
Defined.

(** ** The ranges of the sampled energies *)

Lemma replay_uniform_in_range : uniform_in_range (bitgen := list float).
Proof.
  intros low high s x s'. cbn [rng_uniform Replay.generator]. unfold Replay.uniform.
  destruct (negb (is_finite (high - low))); [discriminate|].
  destruct (low <=? high)%float eqn:Hrange; [|discriminate]. cbn [negb].
  destruct (Replay.next_double s) as [u s1]. intros [= <- _].
  destruct (low <=? low + (high - low) * u)%float eqn:Hlo.
  - destruct (low + (high - low) * u <=? high)%float eqn:Hhi; [auto|].
    split; [exact Hrange | eapply F64.leb_refl, F64.leb_number_r; exact Hrange].
  - split; [eapply F64.leb_refl, F64.leb_number_l; exact Hrange | exact Hrange].
Qed.

(** ** Python's powers *)

Section Powers.

Context `{Libm}.
Import F64 F64Order.
Local Open Scope float_scope.

Lemma pow2_squared x r : Py.pow2 x = Ok r -> r = squared x.
Proof. intros Hx. unfold squared. rewrite Hx. reflexivity. Qed.

Lemma pow_half_root x r : Py.pow_half x = Ok r -> r = root x.
Proof. intros Hx. unfold root. rewrite Hx. reflexivity. Qed.

Lemma abs_square x : abs x * abs x = x * x.
Proof.
  apply Prim2SF_inj. rewrite !mul_spec, abs_spec.
  destruct (Prim2SF x) as [s|s| |s m e]; try destruct s; reflexivity.
Qed.

(** A float equal to 1 is 1: there is one representation of it. *)
Lemma eqb_1_eq x : (x =? 1) = true -> x = 1.
Proof.
  intros (k & Hx & H1)%cmp_eq. apply Prim2SF_inj.
  change (Prim2SF 1) with (S754_finite false 4503599627370496 (-52)) in *.
  simpl in H1. injection H1 as <-.
  destruct (Prim2SF x) as [s|s| |s m e]; try discriminate;
    destruct s; simpl in Hx; try discriminate.
  injection Hx as -> Hm. f_equal. lia.
Qed.

Lemma infinity_square x : is_infinity x = true -> x * x = infinity.
Proof.
  unfold is_infinity. rewrite FloatAxioms.eqb_spec, abs_spec. intros Hinf.
  apply Prim2SF_inj. rewrite mul_spec.
  change (Prim2SF infinity) with (S754_infinity false) in *.
  destruct (Prim2SF x) as [s|s| |s m e]; try discriminate;
    destruct s; try discriminate; reflexivity.
Qed.

(** With an accurate [pow], [x ** 2] is within one unit in the last place
    of the rounded product, and [x ** 0.5] of the rounded square root. *)
Lemma pow2_accurate x r :
  pow_accurate -> Py.pow2 x = Ok r -> within_ulp r (x * x).
Proof.
  intros [Hsq _]. unfold Py.pow2.
  destruct (is_nan x) eqn:Hnan.
  { intros [= <-]. apply is_nan_eq in Hnan as ->. left. reflexivity. }
  destruct (is_infinity x) eqn:Hinf.
  { intros [= <-]. left. symmetry. apply infinity_square. exact Hinf. }
  destruct (x =? 0) eqn:H0.
  { intros [= <-]. left. symmetry. apply zero_square. exact H0. }
  cbv zeta. destruct (abs x =? 1) eqn:H1.
  { intros [= <-]. left. rewrite <- abs_square, (eqb_1_eq _ H1). reflexivity. }
  destruct (is_infinity (pow (abs x) 2)); [discriminate|]. intros [= <-].
  rewrite <- abs_square. apply Hsq.
Qed.

Lemma pow_half_accurate x r :
  pow_accurate -> (0 <? x) = true -> Py.pow_half x = Ok r ->
  within_ulp r (sqrt x).
Proof.
  intros [_ Hroot] Hpos. unfold Py.pow_half.
  rewrite (proj1 (number_is_nan x) (ltb_number_r _ _ Hpos)).
  destruct (is_infinity x) eqn:Hinf.
  { intros [= <-]. rewrite (is_infinity_pos _ Hinf Hpos). left. reflexivity. }
  rewrite (ltb_eqb_r _ _ Hpos), (ltb_asym _ _ Hpos).
  destruct (x =? 1) eqn:H1.
  { intros [= <-]. rewrite (eqb_1_eq _ H1). left. reflexivity. }
  cbv zeta. destruct (is_infinity (pow x 0.5)); [discriminate|]. intros [= <-].
  apply Hroot.
Qed.

(** The correctly rounded [pow] of the replay is accurate. *)
Lemma replay_pow_accurate : @pow_accurate Replay.libm.
Proof. split; intros x; left; reflexivity. Qed.

Lemma maxKE_Ok nuEnergy m :
  maxKE nuEnergy = Ok m -> m = maxKE_formula nuEnergy.
Proof.
  unfold maxKE, maxKE_formula, Py.div. intros Hm.
  apply result_bind_Ok in Hm as (nu2 & ->%pow2_squared & Hm).
  destruct (_ =? 0); [discriminate|]. injection Hm as <-. reflexivity.
Qed.

Lemma maxKE_accurate nuEnergy m :
  pow_accurate -> maxKE nuEnergy = Ok m ->
  exists sq, within_ulp sq (nuEnergy * nuEnergy) /\
             m = 2 * sq / (me + 2 * nuEnergy).
Proof.
  unfold maxKE, Py.div. intros Hacc Hm.
  apply result_bind_Ok in Hm as (nu2 & Hnu2 & Hm).
  destruct (_ =? 0); [discriminate|]. injection Hm as <-.
  exists nu2. split; [eapply pow2_accurate; eauto | reflexivity].
Qed.

End Powers.

(** C4: with a random number source whose uniform samples stay in their
    range, every event [genEvent] returns has its [eKE] between [eThreshold]
    and [maxKE(nuEnergy) = 2 nuEnergy^2 / (me + 2 nuEnergy)], and its
    [nuEnergy] between [max(min(nuEnergyBins), nuThreshold)] and
    [max(nuEnergyBins)].  The square of the bound is Python's
    [nuEnergy ** 2]: with a [pow] that is accurate to one unit in the last
    place, it is the rounded product [nuEnergy * nuEnergy] or a float next
    to it. *)
Theorem genEvent_energy_ranges {bitgen : Type} `{Generator bitgen} `{Libm} `{Blas}
    (g : eES_Gen) (sn : option vec3) (fl : option string)
    (eThreshold nuThreshold : float) (s : bitgen) (ev : event) (s' : bitgen) :
  uniform_in_range ->
  genEvent g sn fl eThreshold nuThreshold s = (Ok ev, s') ->
  (exists m,
     maxKE (nuEnergy ev) = Ok m /\ m = maxKE_formula (nuEnergy ev) /\
     (eThreshold <=? eKE ev)%float = true /\ (eKE ev <=? m)%float = true /\
     (pow_accurate ->
      exists sq, within_ulp sq (nuEnergy ev * nuEnergy ev)%float /\
                 m = (2 * sq / (me + 2 * nuEnergy ev))%float)) /\
  (exists minBin maxBin,
     min (nuEnergyBins g) = Ok minBin /\ max (nuEnergyBins g) = Ok maxBin /\
     (Py.max minBin nuThreshold <=? nuEnergy ev)%float = true /\
     (nuEnergy ev <=? maxBin)%float = true).
Proof.
  intros Hrange Hrun%genEvent_Ok.
  destruct Hrun as [f E s1 v s2 ga gv maxD mKE T s3 c ePhi s4 e0
                      Hsel _ _ _ HmKE HT _ _ _ _ _]. simpl.
  split.
  - exists mKE. split; [exact HmKE|]. split; [exact (maxKE_Ok _ _ HmKE)|].
    apply rejectionSampling_Ok in HT as (t0 & t1 & y & t2 & fx & Hx & _).
    destruct (Hrange _ _ _ _ _ Hx) as [Hlo Hhi].
    split; [exact Hlo|]. split; [exact Hhi|].
    intros Hacc. exact (maxKE_accurate _ _ Hacc HmKE).
  - apply selectNu_Ok in Hsel.
    destruct Hsel as [f s0 rates maxRate minBin maxBin E t1 _ _ _ _ Hmin Hmax HE].
    exists minBin, maxBin. split; [exact Hmin|]. split; [exact Hmax|].
    apply rejectionSampling_Ok in HE as (t0 & t1' & y & t2 & fx & Hx & _).
    exact (Hrange _ _ _ _ _ Hx).
Qed.

Lemma genEvent_energy_ranges_witness :
  (exists m,
     maxKE (nuEnergy replay_event) = Ok m /\
     m = maxKE_formula (nuEnergy replay_event) /\
     (1 <=? eKE replay_event)%float = true /\ (eKE replay_event <=? m)%float = true /\
     (pow_accurate ->
      exists sq,
        within_ulp sq (nuEnergy replay_event * nuEnergy replay_event)%float /\
        m = (2 * sq / (me + 2 * nuEnergy replay_event))%float)) /\
  (exists minBin maxBin,
     min (nuEnergyBins replay_gen) = Ok minBin /\
     max (nuEnergyBins replay_gen) = Ok maxBin /\
     (Py.max minBin 2 <=? nuEnergy replay_event)%float = true /\
     (nuEnergy replay_event <=? maxBin)%float = true).
Proof.
  exact (genEvent_energy_ranges replay_gen (Some (3, 4, 0)%float) (Some "nue")
           1 2 replay_seed replay_event replay_rest
           replay_uniform_in_range replay_genEvent).
Defined.

(** ** The recoil-angle cosine *)

Section CosineValue.

Context `{Libm}.
Import F64 F64Order.
Local Open Scope float_scope.

Lemma eCos_Ok nuEnergy T c :
  eCos nuEnergy T = Ok c -> c = eCos_formula nuEnergy T.
Proof.
  unfold eCos, eCos_formula, Py.div. intros Hc.
  destruct (nuEnergy =? 0); [discriminate|].
  destruct (T + 2 * me =? 0); [discriminate|].
  cbn [mbind result_bind] in Hc.
  apply result_bind_Ok in Hc as (r & ->%pow_half_root & [= <-]). reflexivity.
Qed.

Lemma eCos_accurate nuEnergy T c :
  pow_accurate -> eCos nuEnergy T = Ok c -> (0 <? T / (T + 2 * me)) = true ->
  exists r, within_ulp r (sqrt (T / (T + 2 * me))) /\
            c = (nuEnergy + me) / nuEnergy * r.
Proof.
  unfold eCos, Py.div. intros Hacc Hc Hpos.
  destruct (nuEnergy =? 0); [discriminate|].
  destruct (T + 2 * me =? 0); [discriminate|].
  cbn [mbind result_bind] in Hc.
  apply result_bind_Ok in Hc as (r & Hr & [= <-]).
  exists r. split; [eapply pow_half_accurate; eauto | reflexivity].
Qed.

(** Under the root a negative number: the power is complex, and the
    comparison of the assertion raises [TypeError]. *)
Lemma eCos_TypeError nuEnergy T :
  (nuEnergy =? 0) = false -> (T + 2 * me =? 0) = false ->
  (T / (T + 2 * me) <? 0) = true -> is_infinity (T / (T + 2 * me)) = false ->
  eCos nuEnergy T = Raise TypeError.
Proof.
  intros HE HT Hneg Hinf. unfold eCos, Py.div, Py.pow_half.
  rewrite HE, HT. cbn [mbind result_bind].
  rewrite (proj1 (number_is_nan _) (ltb_number_l _ _ Hneg)), Hinf.
  rewrite (ltb_eqb _ _ Hneg), Hneg. reflexivity.
Qed.

Lemma diff_xscn_nonzero ga gv nuEnergy T v :
  diff_xscn ga gv nuEnergy T = Ok v -> (nuEnergy =? 0) = false.
Proof.
  unfold diff_xscn, Py.div. intros Hv.
  apply result_bind_Ok in Hv as (a & _ & Hv).
  apply result_bind_Ok in Hv as (b & _ & Hv).
  apply result_bind_Ok in Hv as (q & Hq & _).
  destruct (nuEnergy =? 0); [discriminate | reflexivity].
Qed.

End CosineValue.

Section Cosine.

Context {bitgen : Type} `{Generator bitgen} `{Libm} `{Blas}.
Local Open Scope float_scope.

Lemma genEvent_eCos_out_of_range g sn fl eThreshold nuThreshold (s : bitgen)
    f E s1 v s2 ga gv maxD m T s3 c :
  selectNu g fl nuThreshold s = (Ok (f, E), s1) ->
  direction sn s1 = (Ok v, s2) ->
  couplings f = (ga, gv) ->
  diff_xscn ga gv E 0 = Ok maxD ->
  maxKE E = Ok m ->
  rejectionSampling (diff_xscn ga gv E) eThreshold m maxD s2 = (Ok T, s3) ->
  eCos E T = Ok c ->
  (-1 <=? c) && (c <=? 1) = false ->
  genEvent g sn fl eThreshold nuThreshold s
  = (Raise (AssertionError ECosOutOfRange), s3).
Proof.
  intros Hsel Hdir Hc HmaxD Hm HT Hcos Hrange.
  unfold genEvent, mbind, M_bind, lift, assert_.
  rewrite Hsel, Hdir, Hc, HmaxD, Hm, HT, Hcos, Hrange. reflexivity.
Qed.

Lemma genEvent_eCos_complex g sn fl eThreshold nuThreshold (s : bitgen)
    f E s1 v s2 ga gv maxD m T s3 :
  selectNu g fl nuThreshold s = (Ok (f, E), s1) ->
  direction sn s1 = (Ok v, s2) ->
  couplings f = (ga, gv) ->
  diff_xscn ga gv E 0 = Ok maxD ->
  maxKE E = Ok m ->
  rejectionSampling (diff_xscn ga gv E) eThreshold m maxD s2 = (Ok T, s3) ->
  (T + 2 * me =? 0) = false ->
  (T / (T + 2 * me) <? 0) = true -> is_infinity (T / (T + 2 * me)) = false ->
  genEvent g sn fl eThreshold nuThreshold s = (Raise TypeError, s3).
Proof.
  intros Hsel Hdir Hc HmaxD Hm HT Hden Hneg Hinf.
  pose proof (eCos_TypeError E T (diff_xscn_nonzero _ _ _ _ _ HmaxD) Hden Hneg Hinf)
    as Hcos.
  unfold genEvent, mbind, M_bind, lift, assert_.
  rewrite Hsel, Hdir, Hc, HmaxD, Hm, HT, Hcos. reflexivity.
Qed.

End Cosine.

(** C8, as amended: the cosine of the recoil angle is computed from the
    accepted recoil energy [T] and the neutrino energy as
    [(nuEnergy + me) / nuEnergy * (T / (T + 2 me)) ** 0.5]; with a [pow]
    accurate to one unit in the last place and a positive ratio, the power
    is the rounded square root or a float next to it.  Every event returned
    has this value between -1 and 1; when the value computed is a real
    number that is not, the call fails on
    [assert eCos >= -1 and eCos <= 1] (the [AssertionError] that stands for
    KinematicError), right after the recoil energy has been drawn; when the
    ratio is negative, as a negative recoil energy makes it, the power is
    complex and the call fails with [TypeError] instead.  Nothing is
    clamped, and no event is returned. *)
Theorem eCos_checked {bitgen : Type} `{Generator bitgen} `{Libm} `{Blas}
    (g : eES_Gen) (sn : option vec3) (fl : option string)
    (eThreshold nuThreshold : float) (s : bitgen) :
  (forall E T c, eCos E T = Ok c -> c = eCos_formula E T) /\
  (forall E T c,
     pow_accurate -> eCos E T = Ok c ->
     (0 <? T / (T + 2 * me))%float = true ->
     exists r, within_ulp r (sqrt (T / (T + 2 * me)))%float /\
               c = ((E + me) / E * r)%float) /\
  (forall ev s',
     genEvent g sn fl eThreshold nuThreshold s = (Ok ev, s') ->
     exists c, eCos (nuEnergy ev) (eKE ev) = Ok c /\
               (-1 <=? c)%float = true /\ (c <=? 1)%float = true) /\
  (forall f E s1 v s2 ga gv maxD m T s3 c,
     selectNu g fl nuThreshold s = (Ok (f, E), s1) ->
     direction sn s1 = (Ok v, s2) ->
     couplings f = (ga, gv) ->
     diff_xscn ga gv E 0 = Ok maxD ->
     maxKE E = Ok m ->
     rejectionSampling (diff_xscn ga gv E) eThreshold m maxD s2 = (Ok T, s3) ->
     eCos E T = Ok c ->
     ((-1 <=? c) && (c <=? 1))%float = false ->
     genEvent g sn fl eThreshold nuThreshold s
     = (Raise (AssertionError ECosOutOfRange), s3)) /\
  (forall f E s1 v s2 ga gv maxD m T s3,
     selectNu g fl nuThreshold s = (Ok (f, E), s1) ->
     direction sn s1 = (Ok v, s2) ->
     couplings f = (ga, gv) ->
     diff_xscn ga gv E 0 = Ok maxD ->
     maxKE E = Ok m ->
     rejectionSampling (diff_xscn ga gv E) eThreshold m maxD s2 = (Ok T, s3) ->
     (T + 2 * me =? 0)%float = false ->
     (T / (T + 2 * me) <? 0)%float = true ->
     is_infinity (T / (T + 2 * me))%float = false ->
     genEvent g sn fl eThreshold nuThreshold s = (Raise TypeError, s3)).
Proof.
  split; [|split; [|split; [|split]]].
  - exact eCos_Ok.
  - intros E T c Hacc Hc Hpos. exact (eCos_accurate E T c Hacc Hc Hpos).
  - intros ev s' Hrun%genEvent_Ok.
    destruct Hrun as [f E s1 v s2 ga gv maxD mKE T s3 c ePhi s4 e0
                        _ _ _ _ _ _ Hcos Hrange _ _ _]. simpl.
    apply andb_true_iff in Hrange. eauto.
  - intros f E s1 v s2 ga gv maxD m T s3 c. apply genEvent_eCos_out_of_range.
  - intros f E s1 v s2 ga gv maxD m T s3. apply genEvent_eCos_complex.
Qed.

Lemma eCos_checked_witness :
  (exists c,
     eCos (nuEnergy replay_event) (eKE replay_event) = Ok c /\
     c = eCos_formula (nuEnergy replay_event) (eKE replay_event) /\
     (exists r,
        within_ulp r (sqrt (eKE replay_event / (eKE replay_event + 2 * me)))%float /\
        c = ((nuEnergy replay_event + me) / nuEnergy replay_event * r)%float) /\
     (-1 <=? c)%float = true /\ (c <=? 1)%float = true) /\
  genEvent replay_gen (Some (3, 4, 0)%float) (Some "nue") 1 2 limit_draws
  = (Raise (AssertionError ECosOutOfRange), []) /\
  genEvent replay_gen (Some (3, 4, 0)%float) (Some "nue") (-0.5) 2 negative_draws
  = (Raise TypeError, []).
Proof.
  split; [|split].
  - destruct (eCos_checked replay_gen (Some (3, 4, 0)%float) (Some "nue")
                1 2 replay_seed) as (Hformula & Haccurate & Hevent & _).
    destruct (Hevent _ _ replay_genEvent) as (c & Hc & Hlo & Hhi).
    exists c. split; [exact Hc|]. split; [exact (Hformula _ _ _ Hc)|].
    split; [|split; assumption].
    apply (Haccurate _ _ _ replay_pow_accurate Hc). vm_compute. reflexivity.
  - destruct (eCos_checked replay_gen (Some (3, 4, 0)%float) (Some "nue")
                1 2 limit_draws) as (_ & _ & _ & Hfail & _).
    eapply Hfail; run_lhs.
  - destruct (eCos_checked replay_gen (Some (3, 4, 0)%float) (Some "nue")
                (-0.5) 2 negative_draws) as (_ & _ & _ & _ & Hcomplex).
    eapply Hcomplex; try run_lhs; vm_compute; reflexivity.
Defined.

(** C8, as stated, fails for a negative recoil energy: with
    [eThreshold = -0.5] the candidate [T = -0.5] is accepted at 20 MeV, the
    ratio [T / (T + 2 me)] is negative, its power 0.5 is not a real number
    of [[-1, 1]], and the call ends in [TypeError], not in the
    [AssertionError] that stands for KinematicError. *)
Lemma eCos_negative_recoil_TypeError :
  (-0.5 / (-0.5 + 2 * me) <? 0)%float = true /\
  eCos 20 (-0.5) = Raise TypeError /\
  genEvent replay_gen (Some (3, 4, 0)%float) (Some "nue") (-0.5) 2 negative_draws
  = (Raise TypeError, []) /\
  genEvent replay_gen (Some (3, 4, 0)%float) (Some "nue") (-0.5) 2 negative_draws
  <> (Raise (AssertionError ECosOutOfRange), []).
Proof.
  split; [reflexivity|]. split; [reflexivity|].
  assert (genEvent replay_gen (Some (3, 4, 0)%float) (Some "nue") (-0.5) 2
            negative_draws = (Raise TypeError, [])) as Hrun
    by (vm_compute; reflexivity).
  split; [exact Hrun|]. rewrite Hrun. discriminate.
Qed.

(** ** The cross-section model *)

Section CrossSection.

Context `{Libm}.
Import F64 F64Order.
Local Open Scope float_scope.





(** [x ** 2] where [pow] gives the rounded product. *)
Lemma pow2_rounded x :
  pow (abs x) 2 = abs x * abs x -> plain_square x = true ->
  Py.pow2 x = Ok (x * x).
Proof.
  intros Hsq. unfold plain_square, Py.pow2.
  rewrite !andb_true_iff, !negb_true_iff.
  intros ((((((-> & ->) & ->) & ->) & H0) & _) & _). cbv zeta.
  rewrite Hsq, H0, abs_square. reflexivity.
Qed.

End CrossSection.






(** ** Reproducibility *)

Section Session.

Context {bitgen : Type} `{Generator bitgen} `{Libm} `{Blas}.

Lemma init_seeded snowglobesData seed fresh1 fresh2 :
  seed <> (-1)%Z ->
  __init__ snowglobesData seed fresh1 = __init__ snowglobesData seed fresh2.
Proof.
  intros Hseed. unfold __init__.
  destruct (Z.eqb_spec seed (-1)) as [->|_]; [congruence | reflexivity].
Qed.

(** The state a seeded constructor leaves is the one [default_rng] makes of
    the seed. *)
Lemma init_seeded_rng snowglobesData seed fresh g s :
  seed <> (-1)%Z ->
  __init__ snowglobesData seed fresh = Ok (g, s) -> default_rng seed = Ok s.
Proof.
  intros Hseed. unfold __init__.
  destruct (Z.eqb_spec seed (-1)) as [->|_]; [congruence|].
  intros Hinit.
  apply result_bind_Ok in Hinit as (first & _ & Hinit).
  apply result_bind_Ok in Hinit as (rates & _ & Hinit).
  apply result_bind_Ok in Hinit as (totals & _ & Hinit).
  apply result_bind_Ok in Hinit as (rng & Hrng & Hinit).
  injection Hinit as _ <-. exact Hrng.
Qed.

(** The tables of a generator are those of the data, whatever the seed. *)
Lemma init_same_tables snowglobesData seed seed' fresh fresh' g s g' s' :
  __init__ snowglobesData seed fresh = Ok (g, s) ->
  __init__ snowglobesData seed' fresh' = Ok (g', s') -> g = g'.
Proof.
  unfold __init__. intros Hinit Hinit'.
  apply result_bind_Ok in Hinit as (first & Hfirst & Hinit).
  apply result_bind_Ok in Hinit as (rates & Hrates & Hinit).
  apply result_bind_Ok in Hinit as (totals & Htotals & Hinit).
  apply result_bind_Ok in Hinit as (rng & _ & [= <- _]).
  rewrite Hfirst in Hinit'. cbn [mbind result_bind] in Hinit'.
  rewrite Hrates in Hinit'. cbn [mbind result_bind] in Hinit'.
  rewrite Htotals in Hinit'. cbn [mbind result_bind] in Hinit'.
  apply result_bind_Ok in Hinit' as (rng' & _ & [= <- _]). reflexivity.
Qed.

(** A seed [default_rng] accepts is not the value -1, which it refuses and
    by which the constructor's parameter says that no seed is given. *)
Lemma accepted_seed_explicit seed s e :
  default_rng (-1) = Raise e -> default_rng seed = Ok s -> seed <> (-1)%Z.
Proof. intros Hrefused Hseed ->. congruence. Qed.

(** The calls made on one of two generators side by side return what they
    return on that generator alone. *)
Lemma interleaved_First g1 g2 schedule s1 s2 :
  of_owner First (interleaved g1 g2 schedule s1 s2)
  = (genEvents g1 (of_owner First schedule) s1).1.
Proof.
  revert s1 s2. induction schedule as [|[[|] c] schedule IH]; intros s1 s2.
  - reflexivity.
  - cbn [interleaved].
    destruct (genEvent g1 _ _ _ _ s1) as [r s1'] eqn:Hrun.
    unfold of_owner in *. rewrite !filter_cons_True by reflexivity.
    cbn [fmap list_fmap snd genEvents]. rewrite Hrun.
    destruct (genEvents g1 _ s1') as [rs s1''] eqn:Hrest.
    cbn [fst]. f_equal. rewrite (IH s1' s2), Hrest. reflexivity.
  - cbn [interleaved].
    destruct (genEvent g2 _ _ _ _ s2) as [r s2'] eqn:Hrun.
    unfold of_owner in *. rewrite !filter_cons_False by (cbn; discriminate).
    apply IH.
Qed.

Lemma interleaved_Second g1 g2 schedule s1 s2 :
  of_owner Second (interleaved g1 g2 schedule s1 s2)
  = (genEvents g2 (of_owner Second schedule) s2).1.
Proof.
  revert s1 s2. induction schedule as [|[[|] c] schedule IH]; intros s1 s2.
  - reflexivity.
  - cbn [interleaved].
    destruct (genEvent g1 _ _ _ _ s1) as [r s1'] eqn:Hrun.
    unfold of_owner in *. rewrite !filter_cons_False by (cbn; discriminate).
    apply IH.
  - cbn [interleaved].
    destruct (genEvent g2 _ _ _ _ s2) as [r s2'] eqn:Hrun.
    unfold of_owner in *. rewrite !filter_cons_True by reflexivity.
    cbn [fmap list_fmap snd genEvents]. rewrite Hrun.
    destruct (genEvents g2 _ s2') as [rs s2''] eqn:Hrest.
    cbn [fst]. f_equal. rewrite (IH s1 s2'), Hrest. reflexivity.
Qed.

End Session.

(** C9: two generators constructed from the same table data with the same
    explicit seed (any value but -1, by which the constructor's parameter
    says that no seed is given, and which [default_rng] refuses as a seed)
    return the same results on the same sequence of [genEvent] calls,
    whatever entropy the operating system holds at each construction: each
    starts from the state [default_rng] makes of the seed, with the same
    tables, and what the calls return is [genEvents] of these tables, this
    state and the calls.  This also holds when the calls on the two
    generators are made in any order, one generator between the calls of
    the other: each has a random number source of its own. *)
Theorem seeded_sessions_agree {bitgen : Type} `{Generator bitgen} `{Libm} `{Blas}
    (snowglobesData : list table) (seed : Z) (fresh1 fresh2 : bitgen)
    (calls : list call) (schedule : list (owner * call)) :
  seed <> (-1)%Z ->
  session snowglobesData seed fresh1 calls = session snowglobesData seed fresh2 calls /\
  (forall g1 s1 g2 s2,
     __init__ snowglobesData seed fresh1 = Ok (g1, s1) ->
     __init__ snowglobesData seed fresh2 = Ok (g2, s2) ->
     g1 = g2 /\ s1 = s2 /\ default_rng seed = Ok s1 /\
     session snowglobesData seed fresh1 calls = Ok (genEvents g1 calls s1).1 /\
     session snowglobesData seed fresh2 calls = Ok (genEvents g1 calls s1).1) /\
  (of_owner First schedule = calls ->
   of_owner Second schedule = calls ->
   forall out,
     two_sessions snowglobesData seed fresh1 fresh2 schedule = Ok out ->
     of_owner First out = of_owner Second out /\
     session snowglobesData seed fresh1 calls = Ok (of_owner First out) /\
     session snowglobesData seed fresh2 calls = Ok (of_owner Second out)).
Proof.
  intros Hseed.
  pose proof (init_seeded snowglobesData seed fresh1 fresh2 Hseed) as Hinit.
  split; [|split].
  - unfold session. rewrite Hinit. reflexivity.
  - intros g1 s1 g2 s2 Hg1 Hg2.
    pose proof (init_same_tables _ _ _ _ _ _ _ _ _ Hg1 Hg2) as <-.
    pose proof (init_seeded_rng _ _ _ _ _ Hseed Hg1) as Hs1.
    pose proof (init_seeded_rng _ _ _ _ _ Hseed Hg2) as Hs2.
    assert (s1 = s2) as <- by congruence.
    unfold session. rewrite Hg1, Hg2. cbn [mbind result_bind]. auto.
  - intros Hfirst Hsecond out. unfold two_sessions, session.
    rewrite <- Hinit.
    destruct (__init__ snowglobesData seed fresh1) as [[g s]|e];
      cbn [mbind result_bind]; [|discriminate].
    intros [= <-].
    rewrite interleaved_First, interleaved_Second, Hfirst, Hsecond. auto.
Qed.

Lemma seeded_sessions_agree_witness :
  session Replay.data 42 (Replay.doubles 64 1) [default_call; default_call]
  = session Replay.data 42 (Replay.doubles 64 2) [default_call; default_call] /\
  (exists ev1 ev2 out,
     session Replay.data 42 (Replay.doubles 64 1) [default_call; default_call]
     = Ok [Ok ev1; Ok ev2] /\
     two_sessions Replay.data 42 (Replay.doubles 64 1) (Replay.doubles 64 2)
       [(First, default_call); (Second, default_call);
        (Second, default_call); (First, default_call)] = Ok out /\
     of_owner First out = [Ok ev1; Ok ev2] /\
     of_owner Second out = [Ok ev1; Ok ev2]).
Proof.
  destruct (seeded_sessions_agree Replay.data 42 (Replay.doubles 64 1)
              (Replay.doubles 64 2) [default_call; default_call]
              [(First, default_call); (Second, default_call);
               (Second, default_call); (First, default_call)])
    as (Hagree & _ & Hboth); [lia|].
  split; [exact Hagree|].
  eexists _, _, _. split; [run_lhs|]. split; [run_lhs|].
  split; vm_compute; reflexivity.
Defined.

(** ** The rotation onto a direction along the z axis *)

Section Degenerate.

Context {bitgen : Type} `{Generator bitgen} `{Libm} `{Blas}.
Import F64 F64Order.
Local Open Scope float_scope.

Lemma isclose_nan c : isclose nan c = false.
Proof.
  unfold isclose. absorb_nan. rewrite leb_nan_l, eqb_nan_l. reflexivity.
Qed.

Lemma dot_nan3 v : dot nan3 v = nan.
Proof. unfold dot. apply ddot_nan. reflexivity. Qed.

Lemma from_rotvec_nan3 : SciPy.from_rotvec nan3 = SciPy.Quat nan nan nan (cos nan).
Proof.
  unfold SciPy.from_rotvec, nan3, sum_prod. absorb_nan.
  rewrite ?leb_nan_l. absorb_nan. reflexivity.
Qed.

Lemma apply_nan_quat w v : SciPy.apply (SciPy.Quat nan nan nan w) v = nan3.
Proof.
  unfold SciPy.apply, SciPy.as_matrix. absorb_nan.
  rewrite !sum_prod_nan by reflexivity. reflexivity.
Qed.

(** Once the rotation axis is NaN, so are the rotation and the rotated
    recoil direction, and the last assertion of [genEvent] fails. *)
Lemma rot_nan_axis sn : rotAxis sn = nan3 -> rot sn = SciPy.Quat nan nan nan (cos nan).
Proof.
  intros Haxis. unfold rot. rewrite Haxis. unfold vscale, nan3. absorb_nan.
  exact from_rotvec_nan3.
Qed.

Lemma zero_or_nan_cases x : zero_or_nan x -> (x =? 0) = true \/ x = nan.
Proof.
  intros [[s Hs] | Hnan]; [left; exact (zero_eqb_0 _ _ Hs)|].
  right. apply Prim2SF_inj. exact Hnan.
Qed.

Lemma zero_div_zero x : (x =? 0) = true -> x / 0 = nan.
Proof.
  intros [s Hs]%eqb_0_zero. apply Prim2SF_inj. rewrite div_spec, Hs.
  destruct s; reflexivity.
Qed.

(** The norm of a vector along one axis is the root of the square of its
    component on this axis. *)
Lemma norm_z x y z :
  (x =? 0) = true -> (y =? 0) = true -> norm (x, y, z) = sqrt (z * z).
Proof. intros Hx Hy. unfold norm, dot. rewrite ddot_z by assumption. reflexivity. Qed.

Lemma norm_x x y z :
  (y =? 0) = true -> (z =? 0) = true -> norm (x, y, z) = sqrt (x * x).
Proof. intros Hy Hz. unfold norm, dot. rewrite ddot_x by assumption. reflexivity. Qed.

(** A vector of zeros and NaNs has no direction: divided by its norm, it is
    (NaN, NaN, NaN). *)
Lemma vdiv_zero_or_nan p q r :
  zero_or_nan p -> zero_or_nan q -> zero_or_nan r ->
  vdiv (p, q, r) (norm (p, q, r)) = nan3.
Proof.
  intros Hp%zero_or_nan_cases Hq%zero_or_nan_cases Hr%zero_or_nan_cases.
  assert (has_nan (p, q, r) = true -> vdiv (p, q, r) (norm (p, q, r)) = nan3)
    as Hnan.
  { intros Hv. unfold norm, dot. rewrite ddot_nan by (rewrite Hv; reflexivity).
    unfold vdiv, nan3. absorb_nan. reflexivity. }
  destruct Hp as [Hp | ->]; [|apply Hnan; reflexivity].
  destruct Hq as [Hq | ->];
    [|apply Hnan; unfold has_nan; rewrite orb_true_r; reflexivity].
  destruct Hr as [Hr | ->];
    [|apply Hnan; unfold has_nan; rewrite orb_true_r; reflexivity].
  rewrite (norm_z _ _ _ Hp Hq), (zero_square _ Hr).
  change (sqrt 0) with 0. unfold vdiv, nan3.
  rewrite !zero_div_zero by assumption. reflexivity.
Qed.

(** The cross product of the z axis with a vector whose first two
    components are zeros or NaNs is made of zeros and NaNs. *)
Lemma cross_z_zero_or_nan a b c :
  zero_or_nan a -> zero_or_nan b ->
  zero_or_nan (0 * c - 1 * b) /\ zero_or_nan (1 * a - 0 * c)
  /\ zero_or_nan (0 * b - 0 * a).
Proof.
  intros Ha Hb. unfold zero_or_nan. spec_of_ops.
  destruct Ha as [[sa ->] | ->], Hb as [[sb ->] | ->];
    destruct (Prim2SF c) as [sc|sc| |sc mc ec];
    try destruct sa; try destruct sb; try destruct sc;
    repeat split;
    first [left; eexists; reflexivity | right; reflexivity].
Qed.

Lemma rotAxis_zero_or_nan a b c :
  zero_or_nan a -> zero_or_nan b -> rotAxis (a, b, c) = nan3.
Proof.
  intros Ha Hb. unfold rotAxis, cross, zaxis.
  destruct (cross_z_zero_or_nan a b c Ha Hb) as (Hp & Hq & Hr).
  apply vdiv_zero_or_nan; assumption.
Qed.

(** A vector on the z axis, of any length and either sense, has no
    rotation axis once it is normalised. *)
Lemma rotAxis_on_z x y z :
  (x =? 0) = true -> (y =? 0) = true ->
  rotAxis (vdiv (x, y, z) (norm (x, y, z))) = nan3.
Proof.
  intros Hx%eqb_0_zero_or_nan Hy%eqb_0_zero_or_nan.
  unfold vdiv. apply rotAxis_zero_or_nan; apply div_zero_or_nan; assumption.
Qed.

Lemma genEvent_nan_axis g v fl eThreshold nuThreshold (s : bitgen) ev s' :
  rotAxis (vdiv v (norm v)) = nan3 ->
  genEvent g (Some v) fl eThreshold nuThreshold s <> (Ok ev, s').
Proof.
  intros Haxis Hrun%genEvent_Ok.
  destruct Hrun as [f E s1 v' s2 ga gv maxD mKE T s3 c ePhi s4 e0
                      _ Hdir _ _ _ _ _ _ _ _ Hclose].
  apply ret_Ok in Hdir as [<- _].
  rewrite (rot_nan_axis _ Haxis), apply_nan_quat, dot_nan3, isclose_nan in Hclose.
  discriminate.
Qed.

(** The norms of the vectors of the z axis the properties name. *)
Lemma norm_0_0_1 : norm (0, 0, 1) = 1.
Proof. rewrite norm_z by reflexivity. reflexivity. Qed.

Lemma norm_0_0_2 : norm (0, 0, 2) = 2.
Proof. rewrite norm_z by reflexivity. reflexivity. Qed.

Lemma norm_0_0_m1 : norm (0, 0, -1) = 1.
Proof. rewrite norm_z by reflexivity. reflexivity. Qed.

Lemma norm_0_0_0 : norm (0, 0, 0) = 0.
Proof. rewrite norm_z by reflexivity. reflexivity. Qed.

Lemma rotAxis_0_0_1 : rotAxis (0, 0, 1) = nan3.
Proof.
  apply rotAxis_zero_or_nan; apply eqb_0_zero_or_nan; reflexivity.
Qed.

End Degenerate.

(** C1 on the code: for [sn_direction = (0, 0, 1)] the cross product with
    the z axis is the zero vector, its norm is 0 and
    [rotAxis / np.linalg.norm(rotAxis)] divides 0 by 0: the rotation axis is
    (NaN, NaN, NaN), nothing handles the case, and [genEvent] returns no
    event, whatever the tables, the flavor, the thresholds, the random
    draws, the C library and the BLAS. *)
Theorem genEvent_z_axis_fails {bitgen : Type} `{Generator bitgen} `{Libm} `{Blas}
    (g : eES_Gen) (fl : option string) (eThreshold nuThreshold : float)
    (s : bitgen) :
  vdiv (0, 0, 1)%float (norm (0, 0, 1)%float) = (0, 0, 1)%float /\
  cross zaxis (0, 0, 1)%float = (0, 0, 0)%float /\
  norm (cross zaxis (0, 0, 1)%float) = 0%float /\
  rotAxis (0, 0, 1)%float = nan3 /\
  (forall ev s',
     genEvent g (Some (0, 0, 1)%float) fl eThreshold nuThreshold s <> (Ok ev, s')).
Proof.
  split; [rewrite norm_0_0_1; reflexivity|].
  split; [reflexivity|].
  split; [exact norm_0_0_0|].
  split; [exact rotAxis_0_0_1|].
  intros ev s'. apply genEvent_nan_axis. rewrite norm_0_0_1. exact rotAxis_0_0_1.
Qed.

(** C10 on the code: [sn_direction = (0, 0, 2)] has norm 2 and is divided
    by it, which gives (0, 0, 1); the rotation axis is then (NaN, NaN, NaN)
    and [genEvent] returns no event.  The same holds for every vector on
    the z axis, whatever its length and its sense.  On the replay tables the
    call ends in the [AssertionError] of the dot-product check. *)
Theorem genEvent_along_z_fails {bitgen : Type} `{Generator bitgen} `{Libm} `{Blas}
    (g : eES_Gen) (fl : option string) (eThreshold nuThreshold : float)
    (s : bitgen) :
  norm (0, 0, 2)%float = 2%float /\
  vdiv (0, 0, 2)%float (norm (0, 0, 2)%float) = (0, 0, 1)%float /\
  rotAxis (vdiv (0, 0, 2)%float (norm (0, 0, 2)%float)) = nan3 /\
  (forall x y z ev s',
     (x =? 0)%float = true -> (y =? 0)%float = true ->
     genEvent g (Some (x, y, z)) fl eThreshold nuThreshold s <> (Ok ev, s')) /\
  (@genEvent _ Replay.generator Replay.libm Replay.blas
     replay_gen (Some (0, 0, 2)%float) (Some "nue") 1 2 replay_seed).1
  = Raise (AssertionError DotProductMismatch).
Proof.
  split; [exact norm_0_0_2|].
  split; [rewrite norm_0_0_2; reflexivity|].
  split; [apply rotAxis_on_z; reflexivity|].
  split; [|reflexivity].
  intros x y z ev s' Hx Hy. apply genEvent_nan_axis, rotAxis_on_z; assumption.
Qed.

(** ** What a returned event is guaranteed *)

(** The last assertion of [genEvent] makes every returned event satisfy
    [np.isclose(np.dot(eDir, sn_direction), eCos)]: the dot product is
    within [1e-08 + 1e-05 * |eCos|] of the cosine computed from the
    event's energies. *)
Theorem genEvent_dot_isclose {bitgen : Type} `{Generator bitgen} `{Libm} `{Blas}
    (g : eES_Gen) (sn : option vec3) (fl : option string)
    (eThreshold nuThreshold : float) (s : bitgen) (ev : event) (s' : bitgen) :
  genEvent g sn fl eThreshold nuThreshold s = (Ok ev, s') ->
  exists c,
    eCos (nuEnergy ev) (eKE ev) = Ok c /\
    isclose (dot (eDir ev) (sn_direction ev)) c = true.
Proof.
  intros Hrun%genEvent_Ok.
  destruct Hrun as [f E s1 v s2 ga gv maxD mKE T s3 c ePhi s4 e0
                      _ _ _ _ _ _ Hcos _ _ _ Hclose]. simpl. eauto.
Qed.

Lemma genEvent_dot_isclose_witness :
  exists c,
    eCos (nuEnergy replay_event) (eKE replay_event) = Ok c /\
    isclose (dot (eDir replay_event) (sn_direction replay_event)) c = true.
Proof.
  exact (genEvent_dot_isclose replay_gen (Some (3, 4, 0)%float) (Some "nue")
           1 2 replay_seed replay_event replay_rest replay_genEvent).
Defined.

(** The direction opposite to the z axis is degenerate as well: the cross
    product is again the zero vector, and no event is returned. *)
Theorem genEvent_minus_z_axis_fails {bitgen : Type} `{Generator bitgen} `{Libm} `{Blas}
    (g : eES_Gen) (fl : option string) (eThreshold nuThreshold : float)
    (s : bitgen) :
  rotAxis (vdiv (0, 0, -1)%float (norm (0, 0, -1)%float)) = nan3 /\
  (forall ev s',
     genEvent g (Some (0, 0, -1)%float) fl eThreshold nuThreshold s <> (Ok ev, s')).
Proof.
  assert (rotAxis (vdiv (0, 0, -1)%float (norm (0, 0, -1)%float)) = nan3) as Haxis
    by (apply rotAxis_on_z; reflexivity).
  split; [exact Haxis|].
  intros ev s'. apply genEvent_nan_axis. exact Haxis.
Qed.

(** * The tables, the constructor and the sampled values *)

(** ** The sampled neutrino energy and the table *)

Section Reductions.

Import F64 F64Order.
Local Open Scope float_scope.

Lemma foldl_minimum_head l : forall x,
  number x -> (forall j b, l !! j = Some b -> (x <? b) = true) ->
  foldl minimum x l = x.
Proof.
  induction l as [|y l IH]; intros x Hx Hlt; [reflexivity|]. simpl.
  pose proof (Hlt 0%nat y eq_refl) as Hxy.
  assert (minimum x y = x) as ->.
  { unfold minimum.
    rewrite (proj1 (number_is_nan x) Hx).
    rewrite (proj1 (number_is_nan y) (ltb_number_r _ _ Hxy)).
    rewrite (ltb_asym _ _ Hxy). reflexivity. }
  apply IH; [exact Hx|]. intros j b Hj. exact (Hlt (S j) b Hj).
Qed.

(** On strictly increasing bins [np.min] is the first bin and [np.max] the
    last one. *)
Lemma min_increasing x l : increasing (x :: l) = true -> min (x :: l) = Ok x.
Proof.
  intros Hinc. unfold min. f_equal.
  destruct l as [|y l]; [reflexivity|].
  apply foldl_minimum_head.
  - apply increasing_cons in Hinc as [Hxy _]. exact (ltb_number_l _ _ Hxy).
  - intros j b Hj. exact (increasing_head_lt _ _ _ _ Hinc Hj).
Qed.

Lemma last_cons_default {A} (l : list A) : forall y d,
  List.last (y :: l) d = List.last l y.
Proof.
  induction l as [|z l IH]; intros y d; [reflexivity|].
  change (List.last (y :: z :: l) d) with (List.last (z :: l) d).
  rewrite !IH. reflexivity.
Qed.

Lemma max_increasing l : forall x,
  increasing (x :: l) = true -> max (x :: l) = Ok (List.last l x).
Proof.
  unfold max. induction l as [|y l IH]; intros x Hinc; [reflexivity|].
  apply increasing_cons in Hinc as [Hxy Hinc]. cbn [foldl].
  assert (maximum x y = y) as ->.
  { unfold maximum.
    rewrite (proj1 (number_is_nan x) (ltb_number_l _ _ Hxy)).
    rewrite (proj1 (number_is_nan y) (ltb_number_r _ _ Hxy)).
    rewrite Hxy. reflexivity. }
  rewrite (IH y Hinc), last_cons_default. reflexivity.
Qed.

Lemma Py_max_ge a b x :
  (Py.max a b <=? x) = true ->
  (a <=? x) = true /\ (is_nan b = false -> (b <=? x) = true).
Proof.
  unfold Py.max. destruct (a <? b) eqn:Hab; intros Hle.
  - split; [|auto]. apply ltb_leb. eapply ltb_leb_trans; eauto.
  - split; [exact Hle|]. intros Hb%number_is_nan.
    refine (leb_trans _ a _ _ Hle).
    apply not_ltb_leb; [exact (leb_number_l _ _ Hle) | exact Hb | exact Hab].
Qed.

End Reductions.

Section Sampled.

Context {bitgen : Type} `{Generator bitgen} `{Libm} `{Blas}.
Import F64 F64Order.
Local Open Scope float_scope.

Lemma selected_within_table g fl nuThreshold (s : bitgen) f E s' :
  uniform_in_range -> increasing (nuEnergyBins g) = true ->
  selected g fl nuThreshold s f E s' -> within_table g nuThreshold E.
Proof.
  intros Hrange Hinc Hsel. unfold within_table.
  destruct Hsel as [f s0 rates maxRate minBin maxBin E t1 _ _ _ _ Hmin Hmax HE].
  destruct (nuEnergyBins g) as [|e0 bins] eqn:Hbins; [discriminate|].
  rewrite (min_increasing _ _ Hinc) in Hmin. injection Hmin as <-.
  rewrite (max_increasing _ _ Hinc) in Hmax. injection Hmax as <-.
  apply rejectionSampling_Ok in HE as (t0 & t1' & y & t2 & fx & Hx & _).
  destruct (Hrange _ _ _ _ _ Hx) as [Hlo Hhi].
  apply Py_max_ge in Hlo as [Hlo Hthr].
  exists e0, (List.last bins e0). split; [reflexivity|].
  split; [|auto].
  rewrite last_lookup, <- (last_cons_default bins e0 e0).
  exact (last_default_lookup (e0 :: bins) e0 ltac:(discriminate)).
Qed.

Lemma sampled_positive func xmin xmax ymax (s : bitgen) x s' :
  uniform_in_range ->
  rejectionSampling func xmin xmax ymax s = (Ok x, s') ->
  exists fx, func x = Ok fx /\ (0 <? fx) = true /\
             (xmin <=? x) = true /\ (x <=? xmax) = true /\ number ymax.
Proof.
  intros Hrange (t0 & t1 & y & t2 & fx & Hx & Hy & Hfx & Hlt & _)%rejectionSampling_Ok.
  destruct (Hrange _ _ _ _ _ Hx) as [Hlo Hhi].
  destruct (Hrange _ _ _ _ _ Hy) as [Hylo Hyhi].
  exists fx. split; [exact Hfx|]. split; [eapply leb_ltb_trans; eauto|].
  split; [exact Hlo|]. split; [exact Hhi|]. exact (leb_number_r _ _ Hyhi).
Qed.

End Sampled.

(** Within the table: on strictly increasing bins, with uniform samples that
    stay in their range, the neutrino energy [selectNu] returns and the one
    of every event lies between the first and the last bin, and is not
    below [nuThreshold] (when the threshold is a number): the event rate is
    never extrapolated at a sampled energy. *)
Theorem nuEnergy_within_table {bitgen : Type} `{Generator bitgen} `{Libm} `{Blas}
    (g : eES_Gen) (sn : option vec3) (fl : option string)
    (eThreshold nuThreshold : float) (s : bitgen) :
  uniform_in_range ->
  increasing (nuEnergyBins g) = true ->
  (forall f E s', selectNu g fl nuThreshold s = (Ok (f, E), s') ->
                  within_table g nuThreshold E) /\
  (forall ev s', genEvent g sn fl eThreshold nuThreshold s = (Ok ev, s') ->
                 within_table g nuThreshold (nuEnergy ev)).
Proof.
  intros Hrange Hinc. split.
  - intros f E s' Hsel%selectNu_Ok. eapply selected_within_table; eauto.
  - intros ev s' Hrun%genEvent_Ok.
    destruct Hrun as [f E s1 v s2 ga gv maxD mKE T s3 c ePhi s4 e0
                        Hsel%selectNu_Ok _ _ _ _ _ _ _ _ _ _]. simpl.
    eapply selected_within_table; eauto.
Qed.

Lemma nuEnergy_within_table_witness :
  within_table replay_gen 2 (nuEnergy replay_event).
Proof.
  exact (proj2 (nuEnergy_within_table replay_gen (Some (3, 4, 0)%float) (Some "nue")
                  1 2 replay_seed replay_uniform_in_range eq_refl)
           _ _ replay_genEvent).
Defined.

(** ** Reading a table *)

Lemma but_last_length {A} (a : list A) : length (but_last a) = length a - 1.
Proof. unfold but_last. rewrite length_take. lia. Qed.

Lemma but_last_lookup {A} (a : list A) i :
  i < length a - 1 -> but_last a !! i = a !! i.
Proof. intros Hi. unfold but_last. apply lookup_take_lt. exact Hi. Qed.

Lemma readSnowglobesTxtFile_Loaded file nuE rates total :
  readSnowglobesTxtFile file = Loaded (nuE, rates, total) <->
  exists data t0,
    file = Some (Array2 data) /\ last data = Some (t0, total) /\
    is_nan t0 = true /\
    nuE = (fun row => row.1 * 1e3)%float <$> but_last data /\
    rates = (fun row => row.2) <$> but_last data.
Proof.
  unfold readSnowglobesTxtFile. split.
  - destruct file as [[l|data]|]; try discriminate.
    destruct (last data) as [[t0 t1]|] eqn:Hlast; [|discriminate]. simpl.
    destruct (is_nan t0) eqn:Hnan; [|discriminate].
    intros [= <- <- <-]. exists data, t0. auto.
  - intros (data & t0 & -> & -> & Hnan & -> & ->). simpl. rewrite Hnan.
    reflexivity.
Qed.

(** [readSnowglobesTxtFile]: a table is returned for a two-dimensional array
    whose last row starts with a NaN (the line of the total rate), and for
    nothing else.  The table has one entry per row but the last; its
    energies are the first column times 1000 (GeV to MeV), its rates the
    second column, in the order of the file, and its total is the second
    field of the last row: the last row is never a bin.  A missing file
    fails the first assertion, a last row that starts with a number the
    second one, and an array without a last row to index raises
    [IndexError]. *)
Theorem readSnowglobesTxtFile_table (file : option ndarray) :
  (forall nuE rates total,
     readSnowglobesTxtFile file = Loaded (nuE, rates, total) ->
     exists data t0,
       file = Some (Array2 data) /\
       last data = Some (t0, total) /\ is_nan t0 = true /\
       length nuE = length data - 1 /\ length rates = length nuE /\
       (forall i e r,
          i < length data - 1 -> data !! i = Some (e, r) ->
          nuE !! i = Some (e * 1e3)%float /\ rates !! i = Some r)) /\
  (readSnowglobesTxtFile file = LoadFailed FileDoesNotExist <-> file = None) /\
  (readSnowglobesTxtFile file = LoadFailed LastLineFormat <->
   exists data t0 t1,
     file = Some (Array2 data) /\ last data = Some (t0, t1) /\ is_nan t0 = false) /\
  (readSnowglobesTxtFile file = LoadFailed ArrayIndexError <->
   (exists l, file = Some (Array1 l)) \/ file = Some (Array2 [])).
Proof.
  split; [|split; [|split]].
  - intros nuE rates total (data & t0 & -> & Hlast & Hnan & -> & ->)%readSnowglobesTxtFile_Loaded.
    exists data, t0. rewrite !length_fmap, but_last_length.
    split; [reflexivity|]. split; [exact Hlast|]. split; [exact Hnan|].
    split; [reflexivity|]. split; [reflexivity|].
    intros i e r Hi Hrow.
    rewrite !list_lookup_fmap, but_last_lookup, Hrow by exact Hi.
    split; reflexivity.
  - unfold readSnowglobesTxtFile. destruct file as [[l|data]|];
      [split; discriminate| |split; reflexivity].
    destruct (last data) as [[t0 t1]|]; [|split; discriminate]. simpl.
    destruct (is_nan t0); split; discriminate.
  - unfold readSnowglobesTxtFile. destruct file as [[l|data]|].
    + split; [discriminate | intros (? & ? & ? & [=] & _)].
    + destruct (last data) as [[t0 t1]|] eqn:Hlast; simpl.
      * destruct (is_nan t0) eqn:Hnan; split.
        -- discriminate.
        -- intros (? & ? & ? & [= <-] & Hl & Hn). rewrite Hlast in Hl.
           injection Hl as <- <-. congruence.
        -- intros _. exists data, t0, t1. auto.
        -- reflexivity.
      * split; [discriminate|].
        intros (? & ? & ? & [= <-] & Hl & _). congruence.
    + split; [discriminate | intros (? & ? & ? & [=] & _)].
  - unfold readSnowglobesTxtFile. destruct file as [[l|data]|].
    + split; [eauto | reflexivity].
    + destruct (last data) as [[t0 t1]|] eqn:Hlast; simpl.
      * destruct (is_nan t0); (split; [discriminate|]);
          (intros [(? & [=]) | [= ->]]; discriminate).
      * apply last_None in Hlast as ->. split; auto.
    + split; [discriminate | intros [(? & [=]) | [=]]].
Qed.

Lemma readSnowglobesTxtFile_table_witness :
  exists data t0,
    Some (Array2 ReplayFiles.rows) = Some (Array2 data) /\
    last data = Some (t0, 20%float) /\ is_nan t0 = true /\
    length Replay.bins = length data - 1 /\
    length Replay.rates = length Replay.bins /\
    (forall i e r,
       i < length data - 1 -> data !! i = Some (e, r) ->
       Replay.bins !! i = Some (e * 1e3)%float /\ Replay.rates !! i = Some r).
Proof.
  apply (readSnowglobesTxtFile_table (Some (Array2 ReplayFiles.rows))).
  vm_compute. reflexivity.
Defined.

(** ** The constructor *)

Lemma the_flavors_NoDup : NoDup the_flavors.
Proof. compute_done. Qed.

Lemma getindex_Ok {A} (l : list A) i a : getindex l i = Ok a <-> l !! i = Some a.
Proof. unfold getindex. destruct (l !! i); split; congruence. Qed.

(** [mapM] in the monad of results: all the elements or the first error. *)
Lemma mapM_result_Ok {A B} (f : A -> result B) l k :
  mapM f l = Ok k <-> Forall2 (fun a b => f a = Ok b) l k.
Proof.
  revert k. induction l as [|a l IH]; intros k; simpl.
  - split; [intros [= <-]; constructor | intros ->%Forall2_nil_inv_l; reflexivity].
  - rewrite result_bind_Ok. split.
    + intros (b & Hb & (k' & Hk' & [= <-])%result_bind_Ok).
      constructor; [exact Hb | apply IH; exact Hk'].
    + intros (b & k' & Hb & Hk' & ->)%Forall2_cons_inv_l.
      exists b. split; [exact Hb|]. apply result_bind_Ok.
      exists k'. split; [apply IH; exact Hk' | reflexivity].
Qed.

Lemma mapM_getindex_Ok {A B} (proj : A -> B) (l : list A) n k :
  mapM (fun i => t ← getindex l i; mret (proj t)) (seq 0 n) = Ok k <->
  n <= length l /\ k = proj <$> take n l.
Proof.
  rewrite mapM_result_Ok. split.
  - intros Hall.
    assert (length k = n) as Hlen
      by (apply Forall2_length in Hall; rewrite length_seq in Hall; lia).
    assert (forall i, i < n -> exists t, l !! i = Some t /\ k !! i = Some (proj t))
      as Hi.
    { intros i Hlt.
      destruct (lookup_lt_is_Some_2 k i ltac:(lia)) as [b Hb].
      pose proof (Forall2_lookup_lr _ _ _ i i b Hall (lookup_seq_lt _ _ _ Hlt) Hb)
        as Hf. simpl in Hf.
      apply result_bind_Ok in Hf as (t & Ht%getindex_Ok & [= <-]). eauto. }
    assert (n <= length l) as Hn.
    { destruct n as [|n]; [lia|].
      destruct (Hi n ltac:(lia)) as (t & Ht%lookup_lt_Some & _). lia. }
    split; [exact Hn|].
    apply list_eq. intros i. rewrite list_lookup_fmap.
    destruct (decide (i < n)) as [Hlt|Hge].
    + destruct (Hi i Hlt) as (t & Ht & ->).
      rewrite lookup_take_lt, Ht by exact Hlt. reflexivity.
    + rewrite lookup_take_ge by lia.
      rewrite (lookup_ge_None_2 k i) by lia. reflexivity.
  - intros [Hn ->]. apply Forall2_same_length_lookup_2.
    + rewrite length_seq, length_fmap, length_take. lia.
    + intros i j b Hj Hb. apply lookup_seq in Hj as [-> Hlt]. simpl.
      rewrite list_lookup_fmap, lookup_take_lt in Hb by exact Hlt.
      destruct (l !! i) as [t|] eqn:Ht; [|discriminate]. injection Hb as <-.
      apply result_bind_Ok. exists t. split; [apply getindex_Ok; exact Ht | reflexivity].
Qed.

Section Init.

Context {bitgen : Type} `{Generator bitgen}.

Lemma init_Ok snowglobesData seed (fresh : bitgen) g s :
  __init__ snowglobesData seed fresh = Ok (g, s) <->
  6 <= length snowglobesData /\ g = tables_gen snowglobesData /\
  (if (seed =? -1)%Z then Ok fresh else default_rng seed) = Ok s.
Proof.
  unfold __init__. change (length the_flavors) with 6.
  rewrite result_bind_Ok. split.
  - intros (t0 & Ht0%getindex_Ok & Hrun).
    apply result_bind_Ok in Hrun as (rates & [Hlen ->]%mapM_getindex_Ok & Hrun).
    apply result_bind_Ok in Hrun as (totals & [_ ->]%mapM_getindex_Ok & Hrun).
    apply result_bind_Ok in Hrun as (rng & Hrng & [= <- <-]).
    split; [exact Hlen|]. split; [|exact Hrng].
    unfold tables_gen. destruct snowglobesData; [discriminate|].
    injection Ht0 as ->. reflexivity.
  - intros (Hlen & -> & Hrng).
    destruct snowglobesData as [|t0 rest] eqn:Hd; [simpl in Hlen; lia|].
    rewrite <- Hd in *.
    exists t0. split; [apply getindex_Ok; rewrite Hd; reflexivity|].
    apply result_bind_Ok. eexists. split; [apply mapM_getindex_Ok; eauto|].
    apply result_bind_Ok. eexists. split; [apply mapM_getindex_Ok; eauto|].
    apply result_bind_Ok. exists s. split; [exact Hrng|].
    unfold tables_gen. rewrite Hd. reflexivity.
Qed.

Lemma init_Raise_short snowglobesData seed (fresh : bitgen) :
  length snowglobesData < 6 -> __init__ snowglobesData seed fresh = Raise IndexError.
Proof.
  intros Hlen. unfold __init__.
  do 6 (destruct snowglobesData as [|? snowglobesData]; [reflexivity|]).
  simpl in Hlen. lia.
Qed.

Lemma tables_gen_lookup snowglobesData i f t :
  6 <= length snowglobesData ->
  the_flavors !! i = Some f -> snowglobesData !! i = Some t ->
  eventRates (tables_gen snowglobesData) !! f = Some t.1.2 /\
  totalRates (tables_gen snowglobesData) !! f = Some t.2.
Proof.
  intros Hlen Hf Ht.
  assert (i < 6) as Hi by (apply lookup_lt_Some in Hf; exact Hf).
  unfold table in *. unfold tables_gen. cbn [eventRates totalRates].
  split; apply elem_of_list_to_map_1.
  - rewrite fst_zip by (rewrite length_fmap, length_take; change (length the_flavors) with 6; unfold table in *; lia).
    exact the_flavors_NoDup.
  - apply list_elem_of_lookup. exists i.
    apply lookup_zip_with_Some. exists f, t.1.2.
    rewrite list_lookup_fmap. rewrite lookup_take_lt, Ht by exact Hi. auto.
  - rewrite fst_zip by (rewrite length_fmap, length_take; change (length the_flavors) with 6; unfold table in *; lia).
    exact the_flavors_NoDup.
  - apply list_elem_of_lookup. exists i.
    apply lookup_zip_with_Some. exists f, t.2.
    rewrite list_lookup_fmap, lookup_take_lt, Ht by exact Hi. auto.
Qed.

Lemma tables_gen_lookup_None snowglobesData f :
  6 <= length snowglobesData -> f ∉ the_flavors ->
  eventRates (tables_gen snowglobesData) !! f = None /\
  totalRates (tables_gen snowglobesData) !! f = None.
Proof.
  intros Hlen Hf. unfold tables_gen. cbn [eventRates totalRates].
  split; apply not_elem_of_list_to_map_1;
    rewrite fst_zip by (rewrite length_fmap, length_take; change (length the_flavors) with 6; unfold table in *; lia);
    exact Hf.
Qed.

End Init.

(** [__init__]: with fewer than six tables the constructor raises
    [IndexError]; otherwise the generator holds the six flavors, the energy
    bins of the first table alone (the bins of the other five are dropped),
    and, under the i-th flavor, the rates and the total of the i-th table,
    which [getTotalRate] returns; no other key is in the dictionaries, and
    tables beyond the sixth are ignored.  The random number source is the
    fresh one for [seed = -1] and [default_rng(seed)] otherwise. *)
Theorem init_tables {bitgen : Type} `{Generator bitgen}
    (snowglobesData : list table) (seed : Z) (fresh : bitgen) :
  (length snowglobesData < 6 ->
   __init__ snowglobesData seed fresh = Raise IndexError) /\
  (forall g s,
     __init__ snowglobesData seed fresh = Ok (g, s) ->
     flavors g = the_flavors /\
     (exists t, snowglobesData !! 0 = Some t /\ nuEnergyBins g = t.1.1) /\
     (forall i f,
        the_flavors !! i = Some f ->
        exists t, snowglobesData !! i = Some t /\
                  eventRates g !! f = Some t.1.2 /\ getTotalRate g f = Ok t.2) /\
     (forall f,
        f ∉ the_flavors ->
        eventRates g !! f = None /\ getTotalRate g f = Raise KeyError) /\
     (forall more, __init__ (take 6 snowglobesData ++ more) seed fresh = Ok (g, s)) /\
     (if (seed =? -1)%Z then s = fresh else default_rng seed = Ok s)).
Proof.
  split; [apply init_Raise_short|].
  intros g s (Hlen & -> & Hrng)%init_Ok.
  split; [reflexivity|]. split; [|split; [|split; [|split]]].
  - destruct snowglobesData as [|t0 rest]; [simpl in Hlen; lia|]. eauto.
  - intros i f Hf.
    destruct (lookup_lt_is_Some_2 snowglobesData i) as [t Ht].
    { apply lookup_lt_Some in Hf. simpl in Hf. lia. }
    destruct (tables_gen_lookup _ _ _ _ Hlen Hf Ht) as [Hr Ht'].
    exists t. split; [exact Ht|]. split; [exact Hr|].
    unfold getTotalRate. apply getitem_Ok. exact Ht'.
  - intros f Hf.
    destruct (tables_gen_lookup_None _ _ Hlen Hf) as [Hr Ht'].
    split; [exact Hr|]. unfold getTotalRate, getitem. rewrite Ht'. reflexivity.
  - intros more. apply init_Ok.
    split; [rewrite length_app, length_take; lia|]. split; [|exact Hrng].
    unfold tables_gen. rewrite take_app_length' by (rewrite length_take; lia).
    destruct snowglobesData as [|t0 rest]; [simpl in Hlen; lia|]. reflexivity.
  - destruct (seed =? -1)%Z; congruence.
Qed.

Lemma init_tables_witness :
  flavors replay_gen = the_flavors /\
  (exists t, Replay.data !! 0 = Some t /\ nuEnergyBins replay_gen = t.1.1) /\
  (forall i f,
     the_flavors !! i = Some f ->
     exists t, Replay.data !! i = Some t /\
               eventRates replay_gen !! f = Some t.1.2 /\
               getTotalRate replay_gen f = Ok t.2) /\
  (forall f,
     f ∉ the_flavors ->
     eventRates replay_gen !! f = None /\ getTotalRate replay_gen f = Raise KeyError) /\
  (forall more,
     __init__ (take 6 Replay.data ++ more) 42 [] = Ok (replay_gen, Replay.doubles 64 42)) /\
  Replay.seeded 42 = Ok (Replay.doubles 64 42).
Proof.
  exact (proj2 (init_tables Replay.data 42 []) _ _ (replay_init [])).
Defined.

Lemma loaded_bind_Loaded {A B} (r : loaded A) (f : A -> loaded B) b :
  r ≫= f = Loaded b <-> exists a, r = Loaded a /\ f a = Loaded b.
Proof.
  unfold mbind, loaded_bind. split.
  - destruct r as [a|e]; [eauto | discriminate].
  - intros (a & -> & Hf). exact Hf.
Qed.

Lemma mapM_loaded {A B} (f : A -> loaded B) l k :
  mapM f l = Loaded k <-> Forall2 (fun a b => f a = Loaded b) l k.
Proof.
  revert k. induction l as [|a l IH]; intros k; simpl.
  - split; [intros [= <-]; constructor | intros ->%Forall2_nil_inv_l; reflexivity].
  - rewrite loaded_bind_Loaded. split.
    + intros (b & Hb & (k' & Hk' & [= <-])%loaded_bind_Loaded).
      constructor; [exact Hb | apply IH; exact Hk'].
    + intros (b & k' & Hb & Hk' & ->)%Forall2_cons_inv_l.
      exists b. split; [exact Hb|]. apply loaded_bind_Loaded.
      exists k'. split; [apply IH; exact Hk' | reflexivity].
Qed.

(** [mapM] stops at the first element that fails. *)
Lemma mapM_loaded_first_failure {A B} (f : A -> loaded B) l i a e :
  l !! i = Some a -> f a = LoadFailed e ->
  (forall j a', j < i -> l !! j = Some a' -> exists b, f a' = Loaded b) ->
  mapM f l = LoadFailed e.
Proof.
  revert i. induction l as [|x l IH]; intros i Hi Hfail Hbefore; [discriminate|].
  simpl. destruct i as [|i]; simpl in Hi.
  - injection Hi as ->. rewrite Hfail. reflexivity.
  - destruct (Hbefore 0 x ltac:(lia) eq_refl) as [b ->].
    cbn [mbind loaded_bind].
    rewrite (IH i Hi Hfail); [reflexivity|].
    intros j a' Hj Ha'. apply (Hbefore (S j) a'); [lia | exact Ha'].
Qed.

Section Construct.

Context {bitgen : Type} `{Generator bitgen} `{Libm} `{Blas}.
Variables (fs : string -> option ndarray) (dataDir flux detectorConfig : string).

Local Abbreviation file_of := (fun flavor => fs (filename dataDir flux flavor detectorConfig)).

Lemma construct_Loaded seed (fresh : bitgen) r :
  construct fs dataDir flux detectorConfig seed fresh = Loaded r <->
  exists snowglobesData,
    Forall2 (fun flavor t => readSnowglobesTxtFile (file_of flavor) = Loaded t)
            the_flavors snowglobesData /\
    r = __init__ snowglobesData seed fresh.
Proof.
  unfold construct. rewrite loaded_bind_Loaded. split.
  - intros (tables & Htables%mapM_loaded & [= <-]).
    exists tables. split; [|reflexivity].
    apply Forall2_fmap_l in Htables. exact Htables.
  - intros (tables & Htables & ->). exists tables. split; [|reflexivity].
    apply mapM_loaded, Forall2_fmap_l. exact Htables.
Qed.

Lemma construct_Ok seed (fresh : bitgen) g s :
  construct fs dataDir flux detectorConfig seed fresh = Loaded (Ok (g, s)) ->
  exists snowglobesData,
    length snowglobesData = 6 /\
    (forall i f, the_flavors !! i = Some f ->
       exists t, snowglobesData !! i = Some t /\
                 readSnowglobesTxtFile (file_of f) = Loaded t) /\
    g = tables_gen snowglobesData.
Proof.
  intros (tables & Htables & Hinit)%construct_Loaded.
  symmetry in Hinit. apply init_Ok in Hinit as (_ & -> & _).
  exists tables. split; [apply Forall2_length in Htables; auto|].
  split; [|reflexivity].
  intros i f Hf. destruct (Forall2_lookup_l _ _ _ _ _ Htables Hf) as (t & Ht & Hread).
  eauto.
Qed.

Lemma construct_Ok_files seed (fresh : bitgen) g s :
  construct fs dataDir flux detectorConfig seed fresh = Loaded (Ok (g, s)) ->
  exists snowglobesData,
    6 <= length snowglobesData /\ g = tables_gen snowglobesData /\
    (forall i f, the_flavors !! i = Some f ->
       exists data t0 total,
         file_of f = Some (Array2 data) /\
         last data = Some (t0, total) /\ is_nan t0 = true /\
         snowglobesData !! i
         = Some ((fun row => row.1 * 1e3)%float <$> but_last data,
                 (fun row => row.2) <$> but_last data, total)).
Proof.
  intros (tables & Hlen & Htables & ->)%construct_Ok.
  exists tables. split; [lia|]. split; [reflexivity|].
  intros i f Hf.
  destruct (Htables i f Hf) as ([[nuE rates] total] & Ht & Hread).
  apply readSnowglobesTxtFile_Loaded in Hread
    as (data & t0 & Hfile & Hlast & Hnan & -> & ->).
  exists data, t0, total. auto.
Qed.

End Construct.

(** The constructor, from the files to the lookups: when a generator is
    constructed, each of the six files holds a two-dimensional array whose
    last row starts with a NaN; the generator's rates for a flavor are the
    second column of that flavor's file without the last row, its total is
    the second field of the last row, and the energy bins are the first
    column of the [nue] file, times 1000, without the last row. *)
Theorem construct_tables {bitgen : Type} `{Generator bitgen}
    (fs : string -> option ndarray) (dataDir flux detectorConfig : string)
    (seed : Z) (fresh : bitgen) (g : eES_Gen) (s : bitgen) :
  construct fs dataDir flux detectorConfig seed fresh = Loaded (Ok (g, s)) ->
  flavors g = the_flavors /\
  (forall f,
     f ∈ the_flavors ->
     exists data t0 total,
       fs (filename dataDir flux f detectorConfig) = Some (Array2 data) /\
       last data = Some (t0, total) /\ is_nan t0 = true /\
       eventRates g !! f = Some ((fun row => row.2) <$> but_last data) /\
       getTotalRate g f = Ok total) /\
  (exists data,
     fs (filename dataDir flux "nue" detectorConfig) = Some (Array2 data) /\
     nuEnergyBins g = (fun row => row.1 * 1e3)%float <$> but_last data).
Proof.
  intros (tables & Hlen & -> & Hfiles)%construct_Ok_files.
  split; [reflexivity|]. split.
  - intros f (i & Hf)%list_elem_of_lookup_1.
    destruct (Hfiles i f Hf) as (data & t0 & total & Hfile & Hlast & Hnan & Ht).
    destruct (tables_gen_lookup tables i f _ Hlen Hf Ht) as [Hr Htot].
    exists data, t0, total.
    split; [exact Hfile|]. split; [exact Hlast|]. split; [exact Hnan|].
    split; [exact Hr|]. unfold getTotalRate. apply getitem_Ok. exact Htot.
  - destruct (Hfiles 0 "nue" eq_refl) as (data & t0 & total & Hfile & _ & _ & Ht).
    exists data. split; [exact Hfile|].
    destruct tables as [|t tables]; [discriminate|]. injection Ht as ->.
    reflexivity.
Qed.

Lemma construct_tables_witness :
  flavors replay_gen = the_flavors /\
  (forall f,
     f ∈ the_flavors ->
     exists data t0 total,
       ReplayFiles.fs (filename "data" "gvkm" f "scint20kt") = Some (Array2 data) /\
       last data = Some (t0, total) /\ is_nan t0 = true /\
       eventRates replay_gen !! f = Some ((fun row => row.2) <$> but_last data) /\
       getTotalRate replay_gen f = Ok total) /\
  (exists data,
     ReplayFiles.fs (filename "data" "gvkm" "nue" "scint20kt") = Some (Array2 data) /\
     nuEnergyBins replay_gen = (fun row => row.1 * 1e3)%float <$> but_last data).
Proof.
  apply (construct_tables ReplayFiles.fs "data" "gvkm" "scint20kt" 42 []
           replay_gen (Replay.doubles 64 42)).
  vm_compute. reflexivity.
Defined.

(** How the constructor fails: the files are read in the order of the
    flavors and the first one that cannot be read ends the construction with
    its error, whatever the later files and the seed; once the six files
    are read, the only error left is the one of [default_rng(seed)], for a
    seed other than -1: no index or key is ever missing. *)
Theorem construct_failures {bitgen : Type} `{Generator bitgen}
    (fs : string -> option ndarray) (dataDir flux detectorConfig : string)
    (seed : Z) (fresh : bitgen) :
  (forall i f e,
     the_flavors !! i = Some f ->
     readSnowglobesTxtFile (fs (filename dataDir flux f detectorConfig))
       = LoadFailed e ->
     (forall j f', j < i -> the_flavors !! j = Some f' ->
        exists t, readSnowglobesTxtFile (fs (filename dataDir flux f' detectorConfig))
                  = Loaded t) ->
     construct fs dataDir flux detectorConfig seed fresh = LoadFailed e) /\
  (forall f,
     f ∈ the_flavors -> fs (filename dataDir flux f detectorConfig) = None ->
     forall r, construct fs dataDir flux detectorConfig seed fresh <> Loaded r) /\
  (forall e,
     construct fs dataDir flux detectorConfig seed fresh = Loaded (Raise e) ->
     seed <> (-1)%Z /\ default_rng seed = Raise e).
Proof.
  split; [|split].
  - intros i f e Hf Hfail Hbefore. unfold construct.
    rewrite (mapM_loaded_first_failure _ _ i
               (filename dataDir flux f detectorConfig) e); [reflexivity| |exact Hfail|].
    + rewrite list_lookup_fmap, Hf. reflexivity.
    + intros j a' Hj Ha'. rewrite list_lookup_fmap in Ha'.
      destruct (the_flavors !! j) as [f'|] eqn:Hf'; [|discriminate].
      injection Ha' as <-. exact (Hbefore j f' Hj Hf').
  - intros f (i & Hf)%list_elem_of_lookup_1 Hnone r
           (tables & Htables & _)%construct_Loaded.
    destruct (Forall2_lookup_l _ _ _ _ _ Htables Hf) as (t & _ & Hread).
    rewrite Hnone in Hread. discriminate.
  - intros e (tables & Htables & Hinit)%construct_Loaded.
    apply Forall2_length in Htables. change (length the_flavors) with 6 in Htables.
    symmetry in Hinit. unfold __init__ in Hinit.
    do 6 (destruct tables as [|? tables]; [discriminate|]).
    destruct tables; [|discriminate].
    cbn in Hinit. destruct (seed =? -1)%Z eqn:Hseed; [discriminate|].
    split; [intros ->; discriminate|].
    destruct (default_rng seed) as [rng|e']; [discriminate|].
    unfold mbind, result_bind in Hinit. injection Hinit as ->. reflexivity.
Qed.

Lemma construct_failures_witness :
  (forall r, construct ReplayFiles.fs "data" "gvkm" "argon40kt" 42 [] <> Loaded r) /\
  construct ReplayFiles.fs "data" "gvkm" "argon40kt" 42 [] = LoadFailed FileDoesNotExist /\
  Replay.seeded (-2) = Raise ValueError.
Proof.
  destruct (construct_failures ReplayFiles.fs "data" "gvkm" "argon40kt" 42 [])
    as (Hfirst & Hmissing & _).
  destruct (construct_failures ReplayFiles.fs "data" "gvkm" "scint20kt" (-2) [])
    as (_ & _ & Hseed).
  split; [apply (Hmissing "nue"); [|reflexivity]|split].
  - apply (bool_decide_unpack _). vm_compute. exact I.
  - apply (Hfirst 0 "nue"); [reflexivity | reflexivity | intros j f' Hj; lia].
  - refine (proj2 (Hseed ValueError _)). vm_compute. reflexivity.
Defined.

(** ** Where the event rate is defined *)

Lemma interp_Ok_iff x xp fp :
  (exists r, interp x xp fp = Ok r) <-> xp <> [] /\ length fp = length xp.
Proof.
  unfold interp. destruct xp as [|x0 xp], fp as [|f0 fp]; cbn [zip zip_with].
  - split; [intros [r [=]] | intros [[] _]; reflexivity].
  - split; [intros [r [=]] | intros [[] _]; reflexivity].
  - split; [intros [r [=]] | intros [_ [=]]].
  - destruct (Nat.eqb_spec (length (x0 :: xp)) (length (f0 :: fp))) as [Heq|Hne];
      cbn [negb].
    + split; [intros _; split; [discriminate | congruence]|]. intros _.
      destruct (zip_with pair xp fp); [eauto|].
      destruct (is_nan x); [eauto|].
      destruct (_ <? x)%float; [eauto|]. destruct (x <? x0)%float; eauto.
    + split; [intros [r [=]] | intros [_ Heq]; congruence].
Qed.

Lemma interp_Raise x xp fp e : interp x xp fp = Raise e -> e = ValueError.
Proof.
  unfold interp. destruct (zip xp fp) as [|[x0 f0] rest]; [congruence|].
  destruct (negb _); [congruence|].
  destruct rest; [discriminate|].
  destruct (is_nan x); [discriminate|].
  destruct (_ <? x)%float; [discriminate|]. destruct (x <? x0)%float; discriminate.
Qed.

(** [getEventRate]: whether a rate is returned does not depend on the
    energy asked for.  It is for a flavor of [self.flavors] that has a rate
    table as long as the energy bins, these not empty; a flavor outside
    [self.flavors] fails the assertion, a flavor without a table raises
    [KeyError], and a table that is not as long as the bins, or is empty,
    makes [np.interp] raise [ValueError], at every energy. *)
Theorem getEventRate_defined (g : eES_Gen) (f : string) (e : float) :
  ((exists r, getEventRate g f e = Ok r) <->
   f ∈ flavors g /\
   exists rates, eventRates g !! f = Some rates /\
                 nuEnergyBins g <> [] /\ length rates = length (nuEnergyBins g)) /\
  (getEventRate g f e = Raise (AssertionError FlavorNotRecognized) <->
   f ∉ flavors g) /\
  (getEventRate g f e = Raise KeyError <->
   f ∈ flavors g /\ eventRates g !! f = None) /\
  (getEventRate g f e = Raise ValueError <->
   f ∈ flavors g /\
   exists rates, eventRates g !! f = Some rates /\
                 (nuEnergyBins g = [] \/ length rates <> length (nuEnergyBins g))).
Proof.
  unfold getEventRate, is_flavor, getitem.
  destruct (decide (f ∈ flavors g)) as [Hin|Hnot].
  2:{ rewrite bool_decide_eq_false_2 by exact Hnot.
      split; [|split; [|split]].
      - split; [intros [r [=]] | intros [Hin _]; contradiction].
      - split; [intros _; exact Hnot | reflexivity].
      - split; [discriminate | intros [Hin _]; contradiction].
      - split; [discriminate | intros [Hin _]; contradiction]. }
  rewrite bool_decide_eq_true_2 by exact Hin.
  destruct (eventRates g !! f) as [rates|] eqn:Hrates; cbn [mbind result_bind].
  2:{ split; [|split; [|split]].
      - split; [intros [r [=]] | intros (_ & rates & [=] & _)].
      - split; [discriminate | intros Hnot; contradiction].
      - split; [intros _; auto | reflexivity].
      - split; [discriminate | intros (_ & rates & [=] & _)]. }
  pose proof (interp_Ok_iff e (nuEnergyBins g) rates) as Hok.
  destruct (interp e (nuEnergyBins g) rates) as [r|e'] eqn:Hi.
  - destruct (proj1 Hok (ex_intro _ r eq_refl)) as [Hne Hlen].
    split; [|split; [|split]].
    + split; [intros _; eauto | eauto].
    + split; [discriminate | intros Hnot; contradiction].
    + split; [discriminate | intros [_ [=]]].
    + split; [discriminate|].
      intros (_ & rates' & [= <-] & [Hbins | Hbad]); contradiction.
  - apply interp_Raise in Hi as ->.
    assert (nuEnergyBins g = [] \/ length rates <> length (nuEnergyBins g)) as Hbad.
    { destruct (decide (nuEnergyBins g = [])) as [|Hne]; [auto|]. right.
      intros Hlen. destruct (proj2 Hok (conj Hne Hlen)) as [r [=]]. }
    split; [|split; [|split]].
    + split; [intros [r [=]]|].
      intros (_ & rates' & [= <-] & Hne & Hlen). destruct Hbad; contradiction.
    + split; [discriminate | intros Hnot; contradiction].
    + split; [discriminate | intros [_ [=]]].
    + split; [intros _; eauto | reflexivity].
Qed.

Lemma getEventRate_defined_witness :
  (exists r, getEventRate replay_gen "numu" 25 = Ok r) /\
  getEventRate replay_gen "nux" 25 = Raise (AssertionError FlavorNotRecognized).
Proof.
  destruct (getEventRate_defined replay_gen "numu" 25) as (Hok & _).
  destruct (getEventRate_defined replay_gen "nux" 25) as (_ & Hassert & _).
  split.
  - apply Hok. split; [apply (bool_decide_unpack _); vm_compute; exact I|].
    exists Replay.rates. split; [vm_compute; reflexivity|].
    split; [discriminate | reflexivity].
  - apply Hassert. apply (bool_decide_unpack _). vm_compute. exact I.
Defined.

(** ** Tables of different lengths *)

Section Mismatch.

Context {bitgen : Type} `{Generator bitgen} `{Libm} `{Blas}.

Lemma getEventRate_mismatch g f rates e :
  f ∈ flavors g -> eventRates g !! f = Some rates ->
  length rates <> length (nuEnergyBins g) ->
  getEventRate g f e = Raise ValueError.
Proof.
  intros Hin Hrates Hlen. unfold getEventRate, is_flavor, getitem.
  rewrite bool_decide_eq_true_2 by exact Hin. rewrite Hrates.
  cbn [mbind result_bind]. unfold interp.
  destruct (zip _ _) as [|[x0 f0] rest]; [reflexivity|].
  destruct (Nat.eqb_spec (length (nuEnergyBins g)) (length rates)); [congruence|].
  reflexivity.
Qed.

Lemma selected_rate_Ok g fl nuThreshold (s : bitgen) f E s' :
  selected g fl nuThreshold s f E s' -> exists r, getEventRate g f E = Ok r.
Proof.
  intros [f' s0 rates maxRate minBin maxBin E' t1 _ _ _ _ _ _ HE].
  apply rejectionSampling_Ok in HE as (t0 & t1' & y & t2 & fx & _ & _ & Hfx & _).
  eauto.
Qed.

Lemma mismatch_no_event g f rates sn fl eThreshold nuThreshold (s : bitgen) ev s' :
  eventRates g !! f = Some rates ->
  length rates <> length (nuEnergyBins g) ->
  genEvent g sn fl eThreshold nuThreshold s = (Ok ev, s') -> flavor ev <> f.
Proof.
  intros Hrates Hlen Hrun%genEvent_Ok.
  destruct Hrun as [f' E s1 v s2 ga gv maxD mKE T s3 c ePhi s4 e0
                      Hsel%selectNu_Ok _ _ _ _ _ _ _ _ _ _]. simpl.
  intros ->. destruct (selected_rate_Ok _ _ _ _ _ _ _ Hsel) as [r Hr].
  inversion Hsel as [? ? ? ? ? ? ? ? _ Hin]; subst.
  rewrite (getEventRate_mismatch g f rates E Hin Hrates Hlen) in Hr. discriminate.
Qed.

End Mismatch.

(** The constructor does not compare the files: when the file of a flavor
    has another number of lines than the [nue] file, whose energies are the
    bins of every flavor, the generator is constructed all the same, but
    [getEventRate] raises [ValueError] for that flavor at every energy, and
    no event of that flavor is ever returned, be the flavor asked for or
    drawn. *)
Theorem mismatched_files_no_event {bitgen : Type} `{Generator bitgen} `{Libm} `{Blas}
    (fs : string -> option ndarray) (dataDir flux detectorConfig : string)
    (seed : Z) (fresh : bitgen) (g : eES_Gen) (s0 : bitgen)
    (f : string) (data data0 : list (float * float)) :
  construct fs dataDir flux detectorConfig seed fresh = Loaded (Ok (g, s0)) ->
  f ∈ the_flavors ->
  fs (filename dataDir flux f detectorConfig) = Some (Array2 data) ->
  fs (filename dataDir flux "nue" detectorConfig) = Some (Array2 data0) ->
  length data <> length data0 ->
  (forall e, getEventRate g f e = Raise ValueError) /\
  (forall sn fl eThreshold nuThreshold s ev s',
     genEvent g sn fl eThreshold nuThreshold s = (Ok ev, s') -> flavor ev <> f).
Proof.
  intros Hg Hf Hdata Hdata0 Hlen.
  destruct (construct_Ok_files _ _ _ _ _ _ _ _ Hg) as (tables & Hlen6 & -> & Hfiles).
  pose proof Hf as (i & Hi)%list_elem_of_lookup_1.
  destruct (Hfiles i f Hi) as (d & t0 & total & Hd & Hlast & _ & Ht).
  destruct (Hfiles 0 "nue" eq_refl) as (d0 & t00 & total0 & Hd0 & Hlast0 & _ & Ht0).
  rewrite Hdata in Hd. rewrite Hdata0 in Hd0. injection Hd as <-. injection Hd0 as <-.
  destruct (tables_gen_lookup tables i f _ Hlen6 Hi Ht) as [Hrates _].
  cbn [fst snd] in Hrates.
  assert (length ((fun row : float * float => row.2) <$> but_last data)
          <> length (nuEnergyBins (tables_gen tables))) as Hne.
  { destruct tables as [|t tables]; [discriminate|]. injection Ht0 as ->.
    cbn [tables_gen nuEnergyBins head fmap option_fmap option_map default fst].
    unfold id. rewrite !length_fmap, !but_last_length.
    assert (0 < length data) by (destruct data; [discriminate Hlast | simpl; lia]).
    assert (0 < length data0) by (destruct data0; [discriminate Hlast0 | simpl; lia]).
    lia. }
  split.
  - intros e. eapply getEventRate_mismatch; eauto.
  - intros sn fl eThreshold nuThreshold s ev s'.
    eapply mismatch_no_event; eauto.
Qed.

Lemma mismatched_files_no_event_witness :
  exists g s,
    construct fs_short "data" "gvkm" "scint20kt" 42 [] = Loaded (Ok (g, s)) /\
    (forall e, getEventRate g "numu" e = Raise ValueError) /\
    (forall sn fl eThreshold nuThreshold s ev s',
       genEvent g sn fl eThreshold nuThreshold s = (Ok ev, s') ->
       flavor ev <> "numu").
Proof.
  eexists _, _. split; [vm_compute; reflexivity|].
  eapply (mismatched_files_no_event fs_short "data" "gvkm" "scint20kt" 42 []).
  - vm_compute. reflexivity.
  - apply (bool_decide_unpack _). vm_compute. exact I.
  - vm_compute. reflexivity.
  - vm_compute. reflexivity.
  - vm_compute. lia.
Defined.

(** ** What rejection sampling accepts *)

(** With uniform samples that stay in their range, [rejectionSampling]
    returns only candidates at which the sampled function is defined and
    strictly positive: [0 <= y < func(x)].  So the event rate interpolated
    at the neutrino energy of a returned event is positive, and so is the
    cross-section shape at its recoil energy; and the flavor of the event
    is one of the generator's. *)
Theorem sampled_where_positive {bitgen : Type} `{Generator bitgen} `{Libm} `{Blas} :
  uniform_in_range ->
  (forall func xmin xmax ymax (s : bitgen) x s',
     rejectionSampling func xmin xmax ymax s = (Ok x, s') ->
     exists fx, func x = Ok fx /\ (0 <? fx)%float = true) /\
  (forall g sn fl eThreshold nuThreshold (s : bitgen) ev s',
     genEvent g sn fl eThreshold nuThreshold s = (Ok ev, s') ->
     flavor ev ∈ flavors g /\
     (exists rate, getEventRate g (flavor ev) (nuEnergy ev) = Ok rate /\
                   (0 <? rate)%float = true) /\
     (exists d, diff_xscn_of (flavor ev) (nuEnergy ev) (eKE ev) = Ok d /\
                (0 <? d)%float = true)).
Proof.
  intros Hrange. split.
  - intros func xmin xmax ymax s x s' Hrun.
    destruct (sampled_positive _ _ _ _ _ _ _ Hrange Hrun) as (fx & ? & ? & _). eauto.
  - intros g sn fl eThreshold nuThreshold s ev s' Hrun%genEvent_Ok.
    destruct Hrun as [f E s1 v s2 ga gv maxD mKE T s3 c ePhi s4 e0
                        Hsel%selectNu_Ok _ Hc _ _ HT _ _ _ _ _]. simpl.
    destruct Hsel as [f s0 rates maxRate minBin maxBin E t1 _ Hin _ _ _ _ HE].
    split; [exact Hin|]. split.
    + destruct (sampled_positive _ _ _ _ _ _ _ Hrange HE) as (fx & ? & ? & _). eauto.
    + destruct (sampled_positive _ _ _ _ _ _ _ Hrange HT) as (fx & ? & ? & _).
      unfold diff_xscn_of. rewrite Hc. eauto.
Qed.

Lemma sampled_where_positive_witness :
  flavor replay_event ∈ flavors replay_gen /\
  (exists rate,
     getEventRate replay_gen (flavor replay_event) (nuEnergy replay_event) = Ok rate /\
     (0 <? rate)%float = true) /\
  (exists d,
     diff_xscn_of (flavor replay_event) (nuEnergy replay_event) (eKE replay_event)
     = Ok d /\ (0 <? d)%float = true).
Proof.
  exact (proj2 (sampled_where_positive replay_uniform_in_range)
           replay_gen (Some (3, 4, 0)%float) (Some "nue") 1%float 2%float
           replay_seed replay_event replay_rest replay_genEvent).
Defined.

(** ** No NaN in an event *)

Section NoNaN.

Context `{Blas}.
Import F64 F64Order.
Local Open Scope float_scope.

Lemma isclose_number a b : isclose a b = true -> is_nan a = false.
Proof.
  intros Hclose. destruct (is_nan a) eqn:Hnan; [|reflexivity].
  apply is_nan_eq in Hnan as ->. rewrite isclose_nan in Hclose. discriminate.
Qed.

Lemma has_nan_no_nan3 v : has_nan v = false -> no_nan3 v = true.
Proof.
  destruct v as [[x y] z]. unfold has_nan, no_nan3.
  destruct (is_nan x), (is_nan y), (is_nan z); (discriminate || reflexivity).
Qed.

Lemma dot_number a b :
  is_nan (dot a b) = false -> no_nan3 a = true /\ no_nan3 b = true.
Proof.
  unfold dot. intros Hdot.
  destruct (has_nan a || has_nan b) eqn:Hnan.
  - rewrite (ddot_nan _ _ Hnan) in Hdot. discriminate.
  - apply orb_false_iff in Hnan as [Ha Hb].
    split; apply has_nan_no_nan3; assumption.
Qed.

End NoNaN.

(** The last assertion of [genEvent] lets no NaN through: in every event
    returned, no component of [eDir] and of [sn_direction] is NaN (a NaN
    anywhere makes the dot product NaN, which is close to nothing); and,
    with uniform samples that stay in their range, the two energies are
    numbers as well. *)
Theorem genEvent_no_nan {bitgen : Type} `{Generator bitgen} `{Libm} `{Blas}
    (g : eES_Gen) (sn : option vec3) (fl : option string)
    (eThreshold nuThreshold : float) (s : bitgen) (ev : event) (s' : bitgen) :
  genEvent g sn fl eThreshold nuThreshold s = (Ok ev, s') ->
  no_nan3 (eDir ev) = true /\ no_nan3 (sn_direction ev) = true /\
  (uniform_in_range ->
   is_nan (nuEnergy ev) = false /\ is_nan (eKE ev) = false).
Proof.
  intros Hrun%genEvent_Ok.
  destruct Hrun as [f E s1 v s2 ga gv maxD mKE T s3 c ePhi s4 e0
                      Hsel%selectNu_Ok _ _ _ _ HT _ _ _ _ Hclose]. simpl.
  apply isclose_number, dot_number in Hclose as [HeDir Hsn].
  split; [exact HeDir|]. split; [exact Hsn|].
  intros Hrange.
  destruct Hsel as [f s0 rates maxRate minBin maxBin E t1 _ _ _ _ _ _ HE].
  destruct (sampled_positive _ _ _ _ _ _ _ Hrange HE) as (_ & _ & _ & _ & HEhi & _).
  destruct (sampled_positive _ _ _ _ _ _ _ Hrange HT) as (_ & _ & _ & _ & HThi & _).
  split; apply F64.number_is_nan; eapply F64.leb_number_l; eauto.
Qed.

Lemma genEvent_no_nan_witness :
  no_nan3 (eDir replay_event) = true /\ no_nan3 (sn_direction replay_event) = true /\
  is_nan (nuEnergy replay_event) = false /\ is_nan (eKE replay_event) = false.
Proof.
  destruct (genEvent_no_nan replay_gen (Some (3, 4, 0)%float) (Some "nue") 1 2
              replay_seed replay_event replay_rest replay_genEvent)
    as (HeDir & Hsn & Henergies).
  exact (conj HeDir (conj Hsn (Henergies replay_uniform_in_range))).
Defined.

(** ** The direction of the recoil and the direction of the supernova *)

Section Close.

Local Open Scope float_scope.


(** On the x axis the norm is the root of one square, whatever the BLAS:
    a vector whose square underflows is not divided by its length. *)
Lemma tiny_direction_not_unit `{Blas} :
  vdiv (1e-160, 0, 0) (norm (1e-160, 0, 0)) = (1.0000055664551362, 0, 0) /\
  norm (vdiv (1e-160, 0, 0) (norm (1e-160, 0, 0))) = 1.0000055664551362.
Proof.
  assert (norm (1e-160, 0, 0) = 9.9999443357584897e-161) as Hnorm
    by (rewrite norm_x by reflexivity; reflexivity).
  rewrite Hnorm. split; [reflexivity|].
  change (vdiv (1e-160, 0, 0) 9.9999443357584897e-161)
    with (1.0000055664551362, 0 / 9.9999443357584897e-161,
          0 / 9.9999443357584897e-161).
  rewrite norm_x by reflexivity. reflexivity.
Qed.

End Close.




(** ** What the direction and the recoil threshold do not change *)

(** [genEvent] selects the neutrino before it looks at the direction and at
    [eThreshold]: two calls from the same state of the random number source
    that differ in [sn_direction] and [eThreshold] only, and both return an
    event, return the same flavor and the same neutrino energy.  When both
    directions are supplied and the thresholds are equal, the recoil energy
    and the state the source is left in are the same too: the direction
    only turns the recoil. *)
Theorem genEvent_selection_independent {bitgen : Type} `{Generator bitgen} `{Libm} `{Blas}
    (g : eES_Gen) (fl : option string) (nuThreshold : float) (s : bitgen) :
  (forall sn1 sn2 eThreshold1 eThreshold2 ev1 ev2 s1 s2,
     genEvent g sn1 fl eThreshold1 nuThreshold s = (Ok ev1, s1) ->
     genEvent g sn2 fl eThreshold2 nuThreshold s = (Ok ev2, s2) ->
     flavor ev1 = flavor ev2 /\ nuEnergy ev1 = nuEnergy ev2) /\
  (forall v1 v2 eThreshold ev1 ev2 s1 s2,
     genEvent g (Some v1) fl eThreshold nuThreshold s = (Ok ev1, s1) ->
     genEvent g (Some v2) fl eThreshold nuThreshold s = (Ok ev2, s2) ->
     eKE ev1 = eKE ev2 /\ s1 = s2).
Proof.
  split.
  - intros sn1 sn2 eT1 eT2 ev1 ev2 s1 s2 Hrun1%genEvent_Ok Hrun2%genEvent_Ok.
    destruct Hrun1 as [f E t1 v t2 ga gv maxD mKE T t3 c ePhi t4 e0
                         Hsel _ _ _ _ _ _ _ _ _ _].
    destruct Hrun2 as [f' E' t1' v' t2' ga' gv' maxD' mKE' T' t3' c' ePhi' t4' e0'
                         Hsel' _ _ _ _ _ _ _ _ _ _].
    simpl. rewrite Hsel in Hsel'. injection Hsel' as <- <- _. auto.
  - intros v1 v2 eT ev1 ev2 s1 s2 Hrun1%genEvent_Ok Hrun2%genEvent_Ok.
    destruct Hrun1 as [f E t1 v t2 ga gv maxD mKE T t3 c ePhi t4 e0
                         Hsel Hdir Hc HmaxD HmKE HT Hcos _ Hphi _ _].
    destruct Hrun2 as [f' E' t1' v' t2' ga' gv' maxD' mKE' T' t3' c' ePhi' t4' e0'
                         Hsel' Hdir' Hc' HmaxD' HmKE' HT' Hcos' _ Hphi' _ _].
    simpl. rewrite Hsel in Hsel'. injection Hsel' as <- <- <-.
    apply ret_Ok in Hdir as [_ <-]. apply ret_Ok in Hdir' as [_ <-].
    rewrite Hc in Hc'. injection Hc' as <- <-.
    rewrite HmaxD in HmaxD'. injection HmaxD' as <-.
    rewrite HmKE in HmKE'. injection HmKE' as <-.
    rewrite HT in HT'. injection HT' as <- <-.
    rewrite Hphi in Hphi'. injection Hphi' as _ <-. auto.
Qed.

Lemma genEvent_selection_independent_witness :
  (flavor replay_event = "nue" /\
   nuEnergy replay_event = 29.275055678907563%float) /\
  (eKE replay_event = 12.568459102388619%float /\
   replay_rest = drop 5 replay_seed).
Proof.
  destruct (genEvent_selection_independent replay_gen (Some "nue") 2 replay_seed)
    as [Hselect Hrecoil].
  split.
  - refine (Hselect (Some (3, 4, 0)%float) None 1%float 0.5%float replay_event
              {| flavor := "nue";
                 nuEnergy := 29.275055678907563;
                 sn_direction := (-0.36490716223186631, 0.54591859276399779,
                                  0.75419868272654966)%float;
                 eKE := 1.2480948747856608;
                 eDir := (0.13459187699189223, 0.90042934892187199,
                          0.41365687985084149)%float |}
              replay_rest (drop 8 replay_seed) replay_genEvent _).
    vm_compute. reflexivity.
  - refine (Hrecoil (3, 4, 0)%float (1, 0, 0)%float 1%float replay_event
              {| flavor := "nue";
                 nuEnergy := 29.275055678907563;
                 sn_direction := (1, 0, 0)%float;
                 eKE := 12.568459102388619;
                 eDir := (0.97845135802100502, -0.18690795325907844,
                          0.087740281486627991)%float |}
              replay_rest (drop 5 replay_seed) replay_genEvent _).
    vm_compute. reflexivity.
Defined.

(** ** The bound of the recoil sampling *)

Section Bound.

Context `{Libm}.
Import F64 F64Order.
Local Open Scope float_scope.

(** Zero divided by a number that is not zero is a zero. *)
Lemma zero_div x :
  (x =? 0) = false -> is_nan x = false -> exists s, Prim2SF (0 / x) = S754_zero s.
Proof.
  intros Hx Hnan. rewrite div_spec. change (Prim2SF 0) with (S754_zero false).
  rewrite FloatAxioms.eqb_spec in Hx. change (Prim2SF 0) with (S754_zero false) in Hx.
  destruct (Prim2SF x) as [s|s| |s m e] eqn:Hspec.
  - discriminate.
  - simpl. eauto.
  - assert (x = nan) as -> by (apply Prim2SF_inj; rewrite Hspec; reflexivity).
    discriminate.
  - simpl. eauto.
Qed.

Lemma one_minus_zero q s : Prim2SF q = S754_zero s -> 1 - q = 1.
Proof.
  intros Hq. apply Prim2SF_inj. rewrite sub_spec, Hq.
  destruct s; reflexivity.
Qed.

(** A product by a zero is a zero or NaN; added to a number that is not a
    zero, it changes nothing or gives NaN. *)
Lemma mul_zero k z s : Prim2SF z = S754_zero s -> zero_or_nan (k * z).
Proof.
  intros Hz. unfold zero_or_nan. rewrite mul_spec, Hz.
  destruct (Prim2SF k) as [sk|sk| |sk mk ek]; simpl; eauto.
Qed.

Lemma add_zero_or_nan x w sx mx ex :
  Prim2SF x = S754_finite sx mx ex -> zero_or_nan w ->
  is_nan (x + w) = false -> x + w = x.
Proof.
  intros Hx [[s Hw] | Hw] Hnum.
  - apply Prim2SF_inj. rewrite add_spec, Hx, Hw. reflexivity.
  - assert (w = nan) as -> by (apply Prim2SF_inj; exact Hw).
    revert Hnum. absorb_nan. discriminate.
Qed.

Lemma diff_xscn_zero ga gv a b E v sx mx ex :
  Py.pow2 (gv + ga) = Ok a -> Py.pow2 (gv - ga) = Ok b ->
  b * 1 = b ->
  Prim2SF (a + b) = S754_finite sx mx ex ->
  diff_xscn ga gv E 0 = Ok v -> is_nan v = false -> v = a + b.
Proof.
  intros Ha Hb Hb1 Habspec Hv Hnum. unfold diff_xscn in Hv.
  rewrite Ha, Hb in Hv. cbn [mbind result_bind] in Hv.
  apply result_bind_Ok in Hv as (q & Hq & Hv).
  apply result_bind_Ok in Hv as (c & Hc & Hv).
  apply result_bind_Ok in Hv as (ga2 & _ & Hv).
  apply result_bind_Ok in Hv as (gv2 & _ & Hv).
  apply result_bind_Ok in Hv as (nu2 & _ & Hv).
  apply result_bind_Ok in Hv as (r & Hr & [= <-]).
  replace (me * 0) with 0 in Hr by reflexivity.
  unfold Py.div in Hq, Hr.
  destruct (E =? 0) eqn:HE; [discriminate|]. injection Hq as <-.
  destruct (nu2 =? 0) eqn:Hnu2; [discriminate|]. injection Hr as <-.
  destruct (is_nan E) eqn:HEnan.
  { apply is_nan_eq in HEnan as ->. revert Hc. absorb_nan.
    intros [= <-]. revert Hnum. absorb_nan. discriminate. }
  destruct (is_nan nu2) eqn:Hnu2nan.
  { apply is_nan_eq in Hnu2nan as ->. revert Hnum. absorb_nan. discriminate. }
  destruct (zero_div E HE HEnan) as [s1 Hq].
  destruct (zero_div nu2 Hnu2 Hnu2nan) as [s2 Hr].
  rewrite (one_minus_zero _ _ Hq) in Hc. injection Hc as <-.
  rewrite Hb1 in *.
  exact (add_zero_or_nan _ _ _ _ _ Habspec (mul_zero (ga2 - gv2) _ _ Hr) Hnum).
Qed.

Lemma xscn_at_zero_flavor f E v :
  Forall (fun c => pow c 2 = c * c) coupling_sums ->
  f ∈ the_flavors -> diff_xscn_of f E 0 = Ok v -> is_nan v = false ->
  v = xscn_at_zero f.
Proof.
  intros Hexact Hf. vm_compute in Hexact.
  repeat match type of Hexact with
         | Forall _ (_ :: _) =>
             let Hc := fresh "Hc" in
             apply Forall_cons in Hexact as [Hc Hexact]
         end.
  unfold the_flavors in Hf. rewrite !elem_of_cons, elem_of_nil in Hf.
  unfold diff_xscn_of, xscn_at_zero.
  destruct Hf as [->|[->|[->|[->|[->|[->|[]]]]]]];
    match goal with
    | |- context [couplings ?f] =>
        let c := eval vm_compute in (couplings f) in
        change (couplings f) with c; cbv iota beta
    end;
    intros Hv Hnum;
    (eapply diff_xscn_zero; [| | | |exact Hv|exact Hnum]);
    try (vm_compute; reflexivity);
    match goal with
    | |- Py.pow2 ?x = _ =>
        let y := eval vm_compute in x in
        change (Py.pow2 x) with (Py.pow2 y);
        match goal with
        | Hc : _ = _ |- _ => exact (pow2_rounded y Hc eq_refl)
        end
    end.
Qed.

End Bound.

(** The bound [maxDiffXscn = diff_xscn(0)] of the recoil sampling does not
    depend on the neutrino energy.  Where [pow] squares the four sums and
    differences of the couplings as the rounded product does: for each of
    the six flavors and every energy at which the bound is computed and is
    a number, it is [(gv + ga)^2 + (gv - ga)^2], which is 2.3525815072 for
    [nue] and [nuebar] and 0.50282150720000007 for the other four; and with
    uniform samples that stay in their range, it is this constant in every
    call that returns an event. *)
Theorem maxDiffXscn_constant {bitgen : Type} `{Generator bitgen} `{Libm} `{Blas} :
  Forall (fun c => pow c 2 = (c * c)%float) coupling_sums ->
  (forall f E v,
     f ∈ the_flavors -> diff_xscn_of f E 0 = Ok v -> is_nan v = false ->
     v = xscn_at_zero f) /\
  xscn_at_zero <$> the_flavors
  = [2.3525815072; 2.3525815072; 0.50282150720000007; 0.50282150720000007;
     0.50282150720000007; 0.50282150720000007]%float /\
  (forall g sn fl eThreshold nuThreshold (s : bitgen) ev s',
     uniform_in_range -> flavors g = the_flavors ->
     genEvent g sn fl eThreshold nuThreshold s = (Ok ev, s') ->
     diff_xscn_of (flavor ev) (nuEnergy ev) 0 = Ok (xscn_at_zero (flavor ev))).
Proof.
  intros Hexact.
  split; [intros f E v; exact (xscn_at_zero_flavor f E v Hexact)|].
  split; [vm_compute; reflexivity|].
  intros g sn fl eThreshold nuThreshold s ev s' Hrange Hg Hrun%genEvent_Ok.
  destruct Hrun as [f E s1 v s2 ga gv maxD mKE T s3 c ePhi s4 e0
                      Hsel%selectNu_Ok _ Hc HmaxD _ HT _ _ _ _ _]. simpl.
  destruct Hsel as [f s0 rates maxRate minBin maxBin E t1 _ Hin _ _ _ _ _].
  destruct (sampled_positive _ _ _ _ _ _ _ Hrange HT) as (_ & _ & _ & _ & _ & Hnum).
  assert (diff_xscn_of f E 0 = Ok maxD) as Hof
    by (unfold diff_xscn_of; rewrite Hc; exact HmaxD).
  rewrite Hof. f_equal. apply (xscn_at_zero_flavor f E); [exact Hexact| | |].
  - rewrite <- Hg. exact Hin.
  - exact Hof.
  - apply F64.number_is_nan. exact Hnum.
Qed.

Lemma maxDiffXscn_constant_witness :
  Forall (fun c => Replay.pow_rounded c 2 = (c * c)%float) coupling_sums /\
  diff_xscn_of "numu" 17.5 0 = Ok 0.50282150720000007%float /\
  0.50282150720000007%float = xscn_at_zero "numu" /\
  diff_xscn_of (flavor replay_event) (nuEnergy replay_event) 0
  = Ok (xscn_at_zero (flavor replay_event)).
Proof.
  assert (Forall (fun c => Replay.pow_rounded c 2 = (c * c)%float) coupling_sums)
    as Hexact by (apply Forall_forall; intros c _; reflexivity).
  split; [exact Hexact|].
  destruct (@maxDiffXscn_constant _ Replay.generator Replay.libm Replay.blas Hexact)
    as (Hconst & _ & Hevent).
  split; [vm_compute; reflexivity|]. split.
  - apply (Hconst "numu" 17.5%float (0.50282150720000007)%float).
    + apply (bool_decide_unpack _). vm_compute. exact I.
    + vm_compute. reflexivity.
    + reflexivity.
  - exact (Hevent replay_gen (Some (3, 4, 0)%float) (Some "nue") 1%float 2%float
             replay_seed replay_event replay_rest
             replay_uniform_in_range eq_refl replay_genEvent).
Defined.

(** ** Exceptions in the rejection loop *)

Section Exceptions.

Context {bitgen : Type} `{Generator bitgen}.
Variables (func : float -> result float) (xmin xmax ymax : float).

Lemma attempt_Raise (s : bitgen) e s' :
  attempt func xmin xmax ymax s = (Raise e, s') <->
  rng_uniform xmin xmax s = (Raise e, s') \/
  exists x s1,
    rng_uniform xmin xmax s = (Ok x, s1) /\
    (rng_uniform 0 ymax s1 = (Raise e, s') \/
     exists y, rng_uniform 0 ymax s1 = (Ok y, s') /\ func x = Raise e).
Proof.
  unfold attempt. rewrite bind_Raise. split.
  - intros [Hx | (x & s1 & Hx & Hrest)]; [auto|]. right. exists x, s1.
    split; [exact Hx|].
    apply bind_Raise in Hrest as [Hy | (y & s2 & Hy & Hrest)]; [auto|]. right.
    apply bind_Raise in Hrest as [Hf | (fx & s3 & _ & [=])].
    unfold lift in Hf. injection Hf as Hf <-. eauto.
  - intros [Hx | (x & s1 & Hx & Hrest)]; [auto|]. right. exists x, s1.
    split; [exact Hx|]. apply bind_Raise.
    destruct Hrest as [Hy | (y & Hy & Hf)]; [auto|]. right. exists y, s'.
    split; [exact Hy|]. apply bind_Raise. left. unfold lift. rewrite Hf. reflexivity.
Qed.

Lemma rejectionSampling_raise_at n (s s1 : bitgen) e s' :
  n <= 1000 -> rejected func xmin xmax ymax n s s1 ->
  attempt func xmin xmax ymax s1 = (Raise e, s') ->
  rejectionSampling func xmin xmax ymax s = (Raise e, s').
Proof.
  intros Hn Hrej Ha. unfold rejectionSampling.
  rewrite (rejection_loop_skip _ _ _ _ _ _ _ 0%Z Hrej) by lia.
  rewrite rejection_loop_body, Ha. reflexivity.
Qed.

End Exceptions.

(** [rejectionSampling] lets every exception through: it raises [e] exactly
    when, after at most 1000 rejected candidates, a draw of [rng.uniform]
    raises [e], or [func] raises [e] at the candidate (both draws having
    been made by then), or when [e] is the [RuntimeError] of the 1001st
    rejection.  An exception of [func] is not a rejection: nothing is
    retried. *)
Theorem rejectionSampling_raises {bitgen : Type} `{Generator bitgen}
    (func : float -> result float) (xmin xmax ymax : float)
    (s : bitgen) (e : exn) (s' : bitgen) :
  rejectionSampling func xmin xmax ymax s = (Raise e, s') <->
  (exists n s0, n <= 1000 /\ rejected func xmin xmax ymax n s s0 /\
     (rng_uniform xmin xmax s0 = (Raise e, s') \/
      exists x s1,
        rng_uniform xmin xmax s0 = (Ok x, s1) /\
        (rng_uniform 0 ymax s1 = (Raise e, s') \/
         exists y, rng_uniform 0 ymax s1 = (Ok y, s') /\ func x = Raise e))) \/
  (e = RuntimeError /\ rejected func xmin xmax ymax 1001 s s').
Proof.
  split.
  - intros Hrun%rejectionSampling_outcome.
    inversion Hrun as [|n s1 e' s2 Hn Hrej Ha|s2 Hrej]; subst.
    + left. exists n, s1. split; [lia|]. split; [exact Hrej|].
      apply attempt_Raise. exact Ha.
    + right. auto.
  - intros [(n & s0 & Hn & Hrej & Ha) | [-> Hrej]].
    + apply (rejectionSampling_raise_at _ _ _ _ n s s0); auto.
      apply attempt_Raise. exact Ha.
    + apply rejectionSampling_rejected_1001. exact Hrej.
Qed.

Lemma rejectionSampling_raises_witness :
  rejectionSampling func_partial 0 1 1 [0.25; 0.75; 0.5; 0.125]%float
  = (Raise ValueError, []).
Proof.
  apply (rejectionSampling_raises func_partial 0 1 1). left.
  exists 1, [0.5; 0.125]%float. split; [lia|]. split.
  - apply reject_run_rejected. vm_compute. reflexivity.
  - right. exists 0.5%float, [0.125]%float. split; [vm_compute; reflexivity|].
    right. exists 0.125%float. split; vm_compute; reflexivity.
Defined.

(** ** A threshold below the table *)

Section Threshold.

Context {bitgen : Type} `{Generator bitgen} `{Libm} `{Blas}.
Local Open Scope float_scope.

Lemma bind_ext {A B} (m : M bitgen A) (f f' : A -> M bitgen B) s :
  (forall a s1, m s = (Ok a, s1) -> f a s1 = f' a s1) ->
  (m ≫= f) s = (m ≫= f') s.
Proof.
  intros Hf. unfold mbind, M_bind.
  destruct (m s) as [[a|e] s1]; [apply Hf; reflexivity | reflexivity].
Qed.

Lemma bind_cong_l {A B} (m m' : M bitgen A) (f : A -> M bitgen B) s :
  m s = m' s -> (m ≫= f) s = (m' ≫= f) s.
Proof. intros Hm. unfold mbind, M_bind. rewrite Hm. reflexivity. Qed.

Lemma selectNu_minEnergy g fl t t' (s : bitgen) :
  (forall minBin, min (nuEnergyBins g) = Ok minBin ->
                  Py.max minBin t = Py.max minBin t') ->
  selectNu g fl t s = selectNu g fl t' s.
Proof.
  intros Hmax. unfold selectNu.
  apply bind_ext. intros f s0 _.
  apply bind_ext. intros u s1 _.
  apply bind_ext. intros rates s2 _.
  apply bind_ext. intros maxEventRate s3 _.
  apply bind_ext. intros minBin s4 [Hmin _]%lift_Ok.
  cbv zeta. rewrite (Hmax _ Hmin). reflexivity.
Qed.

End Threshold.

(** A [nuThreshold] that is not above the first energy of the table, or is
    NaN, has no effect: [max(np.min(self.nuEnergyBins), nuThreshold)] is the
    minimum of the bins for all such thresholds, and [selectNu] and
    [genEvent] return or raise the same thing, and leave the random number
    source in the same state, whichever of them is given. *)
Theorem nuThreshold_below_table {bitgen : Type} `{Generator bitgen} `{Libm} `{Blas}
    (g : eES_Gen) (minBin t t' : float) :
  min (nuEnergyBins g) = Ok minBin ->
  (minBin <? t)%float = false -> (minBin <? t')%float = false ->
  Py.max minBin t = minBin /\
  (forall fl (s : bitgen), selectNu g fl t s = selectNu g fl t' s) /\
  (forall sn fl eThreshold (s : bitgen),
     genEvent g sn fl eThreshold t s = genEvent g sn fl eThreshold t' s).
Proof.
  intros Hmin Ht Ht'.
  assert (forall fl (s : bitgen), selectNu g fl t s = selectNu g fl t' s) as Hsel.
  { intros fl s. apply selectNu_minEnergy. intros minBin'.
    rewrite Hmin. intros [= <-]. unfold Py.max. rewrite Ht, Ht'. reflexivity. }
  split; [unfold Py.max; rewrite Ht; reflexivity|]. split; [exact Hsel|].
  intros sn fl eThreshold s. unfold genEvent. apply bind_cong_l, Hsel.
Qed.

Lemma nuThreshold_below_table_witness :
  genEvent replay_gen (Some (3, 4, 0)%float) (Some "nue") 1 nan replay_seed
  = genEvent replay_gen (Some (3, 4, 0)%float) (Some "nue") 1 (-1) replay_seed.
Proof.
  apply (nuThreshold_below_table replay_gen 0 nan (-1)); reflexivity.
Defined.
